(** * useSSE: the server-sent-events hook of the NPL starter front end

    A shallow embedding of [src/frontend/src/hooks/useSSE.ts].

    - JavaScript strings are sequences of UTF-16 code units ([jsstring]).
    - The body of the [for (const line of lines)] loop is [process_line];
      the accumulator [currentEvent] is passed explicitly.
    - One [connect()] call is an [attempt]: a record with the flags the
      closure captures, the place where the coroutine is suspended, and
      the list of callback invocations made so far.  Whatever resumes the
      coroutine or calls into the hook from outside is an [event].
    - A fragment enters the model as the text [decoder.decode] returns for
      it.  The [console] calls are left out. *)

From Stdlib Require Import List NArith ZArith String Ascii Bool Lia.
Import ListNotations.
Open Scope list_scope.

(** ** JavaScript strings *)

Definition jsstring := list N.

(** Code units of an ASCII literal. *)
Definition js (s : string) : jsstring :=
  map N_of_ascii (list_ascii_of_string s).

Definition NL : N := 10.     (* '\n' *)
Definition CR : N := 13.     (* '\r' *)
Definition SPACE : N := 32.  (* ' '  *)
Definition COLON : N := 58.  (* ':'  *)

Fixpoint jseqb (a b : jsstring) : bool :=
  match a, b with
  | [], [] => true
  | x :: a', y :: b' => N.eqb x y && jseqb a' b'
  | _, _ => false
  end.

(** [WhiteSpace] and [LineTerminator] of ECMAScript: what [trim] strips. *)
Definition isWhiteSpace (c : N) : bool :=
  (c =? 9)%N || (c =? 10)%N || (c =? 11)%N || (c =? 12)%N || (c =? 13)%N
  || (c =? 32)%N || (c =? 160)%N || (c =? 5760)%N
  || ((8192 <=? c)%N && (c <=? 8202)%N)
  || (c =? 8232)%N || (c =? 8233)%N || (c =? 8239)%N || (c =? 8287)%N
  || (c =? 12288)%N || (c =? 65279)%N.

Fixpoint trimStart (s : jsstring) : jsstring :=
  match s with
  | [] => []
  | c :: s' => if isWhiteSpace c then trimStart s' else s
  end.

Definition trimEnd (s : jsstring) : jsstring := rev (trimStart (rev s)).

(** [s.trim()] *)
Definition trim (s : jsstring) : jsstring := trimEnd (trimStart s).

(** [s.startsWith(p)] *)
Fixpoint startsWith (s p : jsstring) {struct p} : bool :=
  match p, s with
  | [], _ => true
  | _ :: _, [] => false
  | y :: p', x :: s' => N.eqb x y && startsWith s' p'
  end.

(** [s.indexOf(c)] for a one-unit needle [c]; [-1] when absent. *)
Fixpoint indexOf (s : jsstring) (c : N) : Z :=
  match s with
  | [] => (-1)%Z
  | x :: s' =>
      if N.eqb x c then 0%Z
      else let i := indexOf s' c in
           if (i =? -1)%Z then (-1)%Z else (i + 1)%Z
  end.

(** Relative index of [slice]: negative counts from the end. *)
Definition relIndex (len i : Z) : Z :=
  if (i <? 0)%Z then Z.max (len + i) 0 else Z.min i len.

(** [s.slice(from, to)] *)
Definition slice (s : jsstring) (from to : Z) : jsstring :=
  let len := Z.of_nat (List.length s) in
  let f := relIndex len from in
  let t := relIndex len to in
  firstn (Z.to_nat (t - f)) (skipn (Z.to_nat f) s).

(** [s.slice(from)] *)
Definition sliceFrom (s : jsstring) (from : Z) : jsstring :=
  slice s from (Z.of_nat (List.length s)).

(** [s.split('\n')]: never empty. *)
Fixpoint split_nl (s : jsstring) : list jsstring :=
  match s with
  | [] => [[]]
  | c :: s' =>
      if N.eqb c NL then [] :: split_nl s'
      else match split_nl s' with
           | [] => [[c]]
           | l :: ls => (c :: l) :: ls
           end
  end.

(** [a.pop()]: the last element (if any) and the array that remains. *)
Definition pop {A : Type} (a : list A) : option A * list A :=
  match rev a with
  | [] => (None, [])
  | x :: r => (Some x, rev r)
  end.

(** [x || ''] for [x] a string or [undefined]. *)
Definition orEmpty (x : option jsstring) : jsstring :=
  match x with
  | Some (c :: s) => c :: s
  | _ => []
  end.

(** [a.join('\n')] *)
Fixpoint join_nl (a : list jsstring) : jsstring :=
  match a with
  | [] => []
  | [x] => x
  | x :: rest => x ++ NL :: join_nl rest
  end.

(** ** Messages *)

(** [interface SSEMessage]. *)
Module SSEMessage.
Record t : Type := mk
  { event : option jsstring;
    data : jsstring;
    id : option jsstring }.
End SSEMessage.

(** [Partial<SSEMessage>]: the accumulator [currentEvent]. *)
Module Partial.
Record t : Type := mk
  { event : option jsstring;
    data : option jsstring;
    id : option jsstring }.

(** [{}] *)
Definition empty : t := mk None None None.
End Partial.

(** ** The line loop *)

(** [currentEvent.data ? currentEvent.data + '\n' + value : value]; a
    string is truthy when it is not empty, [undefined] is not. *)
Definition join_data (data : option jsstring) (value : jsstring) : jsstring :=
  match data with
  | Some (c :: d) => (c :: d) ++ NL :: value
  | _ => value
  end.

(** The [switch (field)] statement. *)
Definition switch_field (currentEvent : Partial.t) (field value : jsstring)
  : Partial.t :=
  if jseqb field (js "event") then
    Partial.mk (Some value) (Partial.data currentEvent)
               (Partial.id currentEvent)
  else if jseqb field (js "data") then
    Partial.mk (Partial.event currentEvent)
               (Some (join_data (Partial.data currentEvent) value))
               (Partial.id currentEvent)
  else if jseqb field (js "id") then
    Partial.mk (Partial.event currentEvent) (Partial.data currentEvent)
               (Some value)
  else if jseqb field (js "retry") then currentEvent
  else currentEvent.

(** The blank-line branch, [if (currentEvent.data)]: the message handed
    to [onMessage], if any. *)
Definition dispatch (currentEvent : Partial.t) : option SSEMessage.t :=
  match Partial.data currentEvent with
  | Some (c :: d) =>
      Some (SSEMessage.mk (Partial.event currentEvent) (c :: d)
                          (Partial.id currentEvent))
  | _ => None
  end.

(** One iteration of [for (const line of lines)]: the next accumulator and
    the argument of the [onMessage] call of this iteration, if there is
    one. *)
Definition process_line (currentEvent : Partial.t) (line : jsstring)
  : Partial.t * option SSEMessage.t :=
  if jseqb (trim line) [] then (Partial.empty, dispatch currentEvent)
  else if startsWith line [COLON] then (currentEvent, None)
  else
    let colonIndex := indexOf line COLON in
    if (colonIndex =? -1)%Z then (currentEvent, None)
    else
      let field := slice line 0 colonIndex in
      let value := sliceFrom line (colonIndex + 1) in
      let value := if startsWith value [SPACE] then sliceFrom value 1
                   else value in
      (switch_field currentEvent field value, None).

Definition optlist {A : Type} (o : option A) : list A :=
  match o with Some x => [x] | None => [] end.

(** The whole [for] loop, with the messages in the order of their calls. *)
Fixpoint process_lines (currentEvent : Partial.t) (lines : list jsstring)
  : Partial.t * list SSEMessage.t :=
  match lines with
  | [] => (currentEvent, [])
  | line :: rest =>
      let (cur, m) := process_line currentEvent line in
      let (cur', ms) := process_lines cur rest in
      (cur', optlist m ++ ms)
  end.

(** ** The frame parser: buffer and accumulator across reads *)

Record ParserState : Type := mkParser
  { buffer : jsstring;
    currentEvent : Partial.t }.

(** [let buffer = ''; let currentEvent = {}] *)
Definition initial : ParserState := mkParser [] Partial.empty.

(** [buffer += text; lines = buffer.split('\n'); buffer = lines.pop() || ''] *)
Definition take_lines (buf text : jsstring) : list jsstring * jsstring :=
  let buffer := buf ++ text in
  let lines := split_nl buffer in
  let (last, lines) := pop lines in
  (lines, orEmpty last).

(** One pass of the [while] body on a decoded fragment. *)
Definition feed (st : ParserState) (text : jsstring)
  : ParserState * list SSEMessage.t :=
  let (lines, buf) := take_lines (buffer st) text in
  let (cur, ms) := process_lines (currentEvent st) lines in
  (mkParser buf cur, ms).

Fixpoint feed_all (st : ParserState) (chunks : list jsstring)
  : ParserState * list SSEMessage.t :=
  match chunks with
  | [] => (st, [])
  | text :: rest =>
      let (st', ms) := feed st text in
      let (st'', ms') := feed_all st' rest in
      (st'', ms ++ ms')
  end.

(** ** One subscription attempt: [connect()] and the effect cleanup *)

(** A value that was thrown, or with which a promise was rejected. *)
Inductive thrown : Type :=
| ErrorObject (message : jsstring)   (* [error instanceof Error] *)
| OtherValue.

(** [error instanceof Error ? error : new Error('SSE connection error')],
    as the message of the error handed to [onError]. *)
Definition asError (error : thrown) : jsstring :=
  match error with
  | ErrorObject message => message
  | OtherValue => js "SSE connection error"
  end.

(** Invocations of the caller's callbacks, oldest first. *)
Inductive call : Type :=
| OnMessage (message : SSEMessage.t)
| OnError (message : jsstring).

(** What a call of the caller's [onMessage] does besides returning: it may
    call the [disconnect] of the handle the hook returned, and it may
    throw. *)
Record reaction : Type := mkReaction
  { disconnects : bool;
    throws : option thrown }.

(** The caller's [onMessage]; it may depend on the calls made before. *)
Definition handler : Type := list call -> SSEMessage.t -> reaction.

(** Where [connect()] is suspended. *)
Inductive suspension : Type :=
| AwaitToken                      (* [await getToken()] *)
| AwaitFetch (token : jsstring)   (* [await fetch(url, ...)] *)
| AwaitRead (st : ParserState)    (* [await reader.read()] *)
| Returned.

Record attempt : Type := mkAttempt
  { isSubscribed : bool;     (* [let isSubscribed] *)
    aborted : bool;          (* [abortController.signal.aborted] *)
    refCurrent : bool;       (* [abortControllerRef.current] is this
                                attempt's controller *)
    at_ : suspension;
    calls : list call }.

(** What resumes [connect()], and the two ways in from outside. *)
Inductive event : Type :=
| TokenResolved (token : jsstring)
| TokenRejected (error : thrown)
| FetchResolved (ok : bool) (statusText : jsstring) (body : bool)
| FetchRejected (error : thrown)
| ReadChunk (text : jsstring)   (* [done] false; [text] is the decoded value *)
| ReadDone                      (* [done] true *)
| ReadRejected (error : thrown)
| Cleanup                       (* the function the effect returns *)
| Disconnect.                   (* [disconnect()] of the returned handle *)

Definition set_at (a : attempt) (s : suspension) : attempt :=
  mkAttempt (isSubscribed a) (aborted a) (refCurrent a) s (calls a).

Definition log (a : attempt) (c : call) : attempt :=
  mkAttempt (isSubscribed a) (aborted a) (refCurrent a) (at_ a)
            (calls a ++ [c]).

(** [abortControllerRef.current?.abort()] *)
Definition disconnect (a : attempt) : attempt :=
  if refCurrent a
  then mkAttempt (isSubscribed a) true (refCurrent a) (at_ a) (calls a)
  else a.

(** The function returned by the effect. *)
Definition cleanup (a : attempt) : attempt :=
  mkAttempt false true false (at_ a) (calls a).

Section Connect.

(** [onMessage?] and whether [onError?] was supplied. *)
Variable onMessage : option handler.
Variable onError : bool.

(** The [catch] block; [connect()] returns after it. *)
Definition catch (a : attempt) (error : thrown) : attempt :=
  let a' := if negb (aborted a) && isSubscribed a
            then (if onError then log a (OnError (asError error)) else a)
            else a in
  set_at a' Returned.

(** The [for] loop with the caller's handler run at each
    [onMessage?.(...)]: the accumulator at the end, or the value that
    was thrown. *)
Fixpoint for_lines (a : attempt) (cur : Partial.t) (lines : list jsstring)
  : attempt * (Partial.t + thrown) :=
  match lines with
  | [] => (a, inl cur)
  | line :: rest =>
      let (cur', m) := process_line cur line in
      match m, onMessage with
      | Some message, Some h =>
          let r := h (calls a) message in
          let a1 := log a (OnMessage message) in
          let a2 := if disconnects r then disconnect a1 else a1 in
          match throws r with
          | Some error => (a2, inr error)
          | None => for_lines a2 cur' rest
          end
      | _, _ => for_lines a cur' rest
      end
  end.

(** The head of [while (isSubscribed)]: the next [await reader.read()],
    or the end of [connect()]. *)
Definition loop_head (a : attempt) (st : ParserState) : attempt :=
  if isSubscribed a then set_at a (AwaitRead st) else set_at a Returned.

Definition step (a : attempt) (ev : event) : attempt :=
  match ev, at_ a with
  | Cleanup, _ => cleanup a
  | Disconnect, _ => disconnect a
  | TokenResolved token, AwaitToken => set_at a (AwaitFetch token)
  | TokenRejected error, AwaitToken => catch a error
  | FetchResolved ok statusText body, AwaitFetch _ =>
      if negb ok then
        catch a (ErrorObject (js "SSE connection failed: " ++ statusText))
      else if negb body then
        catch a (ErrorObject (js "Response body is not readable"))
      else loop_head a initial
  | FetchRejected error, AwaitFetch _ => catch a error
  | ReadDone, AwaitRead _ => set_at a Returned
  | ReadChunk text, AwaitRead st =>
      let (lines, buf) := take_lines (buffer st) text in
      match for_lines a (currentEvent st) lines with
      | (a', inl cur) => loop_head a' (mkParser buf cur)
      | (a', inr error) => catch a' error
      end
  | ReadRejected error, AwaitRead _ => catch a error
  | _, _ => a
  end.

Definition run (a : attempt) (evs : list event) : attempt :=
  fold_left step evs a.

End Connect.

(** A fresh attempt: [isSubscribed] is true, the controller is new and
    stored in the ref, and [connect()] has run up to [await getToken()]. *)
Definition started : attempt := mkAttempt true false true AwaitToken [].

(** The effect: nothing when [enabled] is false. *)
Definition useEffect (enabled : bool) : option attempt :=
  if enabled then Some started else None.

Definition messages (cs : list call) : list SSEMessage.t :=
  flat_map (fun c => match c with OnMessage m => [m] | OnError _ => [] end) cs.

Definition errors (cs : list call) : list jsstring :=
  flat_map (fun c => match c with OnError e => [e] | OnMessage _ => [] end) cs.

(** ** Vocabulary of the statements *)

(** The value of a field: at most one leading space goes. *)
Definition stripOneSpace (rest : jsstring) : jsstring :=
  match rest with
  | c :: r => if N.eqb c SPACE then r else rest
  | [] => []
  end.

(** Cancellation has been requested: the controller was aborted, or the
    effect was cleaned up. *)
Definition cancelled (a : attempt) : Prop :=
  aborted a = true \/ isSubscribed a = false.

(** The event reports a failure of the credential supplier, of the
    request or its response, or of a read. *)
Definition environment_failure (ev : event) : bool :=
  match ev with
  | TokenRejected _ | FetchRejected _ | ReadRejected _ => true
  | FetchResolved ok _ body => negb (ok && body)
  | _ => false
  end.

(** The caller's [onMessage] threw while the fragment of the event was
    processed. *)
Definition handler_threw (onMessage : option handler) (a : attempt)
           (ev : event) : bool :=
  match ev, at_ a with
  | ReadChunk text, AwaitRead st =>
      match for_lines onMessage a (currentEvent st)
                      (fst (take_lines (buffer st) text)) with
      | (_, inr _) => true
      | (_, inl _) => false
      end
  | _, _ => false
  end.

(** A handler that only returns. *)
Definition quiet : handler := fun _ _ => mkReaction false None.

(** A handler that calls [disconnect()] and returns. *)
Definition stopper : handler := fun _ _ => mkReaction true None.

(** A handler that throws. *)
Definition thrower : handler :=
  fun _ _ => mkReaction false (Some (ErrorObject (js "boom"))).

(** A handler that calls [disconnect()] and then throws. *)
Definition stop_and_throw : handler :=
  fun _ _ => mkReaction true (Some (ErrorObject (js "boom"))).

(** Whether a call of the caller's [onMessage] made by the loop over
    [lines] called [disconnect()]. *)
Fixpoint handler_disconnected (onMessage : option handler) (a : attempt)
         (cur : Partial.t) (lines : list jsstring) : bool :=
  match lines with
  | [] => false
  | line :: rest =>
      let (cur', m) := process_line cur line in
      match m, onMessage with
      | Some message, Some h =>
          let r := h (calls a) message in
          let a1 := log a (OnMessage message) in
          let a2 := if disconnects r then disconnect a1 else a1 in
          disconnects r
          || match throws r with
             | Some _ => false
             | None => handler_disconnected onMessage a2 cur' rest
             end
      | _, _ => handler_disconnected onMessage a cur' rest
      end
  end.

(** The first [':'] of a line: what precedes it and what follows it. *)
Fixpoint splitColon (line : jsstring) : option (jsstring * jsstring) :=
  match line with
  | [] => None
  | c :: r =>
      if N.eqb c COLON then Some ([], r)
      else match splitColon r with
           | Some (name, rest) => Some (c :: name, rest)
           | None => None
           end
  end.

(** Name and value of a field line; [None] for a comment and for a line
    without [':']. *)
Definition fieldOf (line : jsstring) : option (jsstring * jsstring) :=
  match splitColon line with
  | Some (c :: name, rest) => Some (c :: name, stripOneSpace rest)
  | _ => None
  end.

(** The value carried by a [data] line: what follows ["data:"], less one
    leading space. *)
Definition dataValue (line : jsstring) : option jsstring :=
  if startsWith line (js "data:")
  then Some (stripOneSpace (skipn 5 line))
  else None.

(** The values of the [data] lines of a block, in arrival order. *)
Definition dataValues (block : list jsstring) : list jsstring :=
  flat_map (fun line => optlist (dataValue line)) block.

(** Lines of a block: none of them is blank. *)
Definition nonblank (line : jsstring) : Prop := trim line <> [].

(** An [id:] or [event:] line. *)
Definition idOrEvent (line : jsstring) : Prop :=
  startsWith line (js "id:") = true \/ startsWith line (js "event:") = true.

(** The value carried by a line of the field [name]: what follows
    [name ++ ":"], less one leading space. *)
Definition fieldValue (name line : jsstring) : option jsstring :=
  if startsWith line (name ++ [COLON])
  then Some (stripOneSpace (skipn (S (List.length name)) line))
  else None.

(** The values of the lines of the field [name] in a block, in arrival
    order. *)
Definition fieldValues (name : jsstring) (block : list jsstring)
  : list jsstring :=
  flat_map (fun line => optlist (fieldValue name line)) block.

(** The values left once the empty values at the front are gone. *)
Fixpoint dropEmpty (vs : list jsstring) : list jsstring :=
  match vs with
  | [] :: rest => dropEmpty rest
  | _ => vs
  end.

(** A line the loop passes over: it is not blank, and it is a comment, has
    no [':'], or names a field other than [event], [data] and [id]. *)
Definition passedOver (line : jsstring) : Prop :=
  nonblank line
  /\ (startsWith line [COLON] = true
      \/ ~ In COLON line
      \/ exists name rest,
          line = name ++ COLON :: rest /\ name <> [] /\ ~ In COLON name
          /\ name <> js "event" /\ name <> js "data" /\ name <> js "id").

(** ** The dashboard and the IOU card *)

(** [x || d] for [x] a string or [undefined]. *)
Definition orElse (x : option jsstring) (d : jsstring) : jsstring :=
  match x with
  | Some (c :: s) => c :: s
  | _ => d
  end.

Module IouCard.

(** What the card offers: the [iou-actions] block and the three controls
    inside it. *)
Record view : Type := mkView
  { actions : bool;
    payForm : bool;
    cancelButton : bool;
    confirmButton : bool }.

(** The conditions of the JSX, for [iou['@state']], the e-mail addresses
    [getPartyEmail] gave for the two parties, and [currentUser]. *)
Definition render (state borrowerEmail lenderEmail currentUser : jsstring)
  : view :=
  let isBorrower := jseqb borrowerEmail currentUser in
  let isLender := jseqb lenderEmail currentUser in
  let isDue := jseqb state (js "due") in
  let isAwaitingConfirmation :=
    jseqb state (js "awaitingPaymentConfirmation") in
  let isActive := isDue || isAwaitingConfirmation in
  if isActive && ((isBorrower && isDue) || isLender)
  then mkView true (isBorrower && isDue) isLender
              (isLender && isAwaitingConfirmation)
  else mkView false false false false.

(** [{iou['@id'].slice(0, 8)}...] *)
Definition idLabel (id : jsstring) : jsstring := slice id 0 8 ++ js "...".

End IouCard.

Module Dashboard.

(** The [onMessage] the dashboard passes to the hook: whether it calls
    [loadIous()], that is [message.event === 'state']. *)
Definition refreshes (message : SSEMessage.t) : bool :=
  match SSEMessage.event message with
  | Some e => jseqb e (js "state")
  | None => false
  end.

Section Ious.

(** The type [Iou] of the API. *)
Variable Iou : Type.

(** [ious], [loading] and [error] of the component. *)
Record state : Type := mkState
  { ious : list Iou;
    loading : bool;
    error : option jsstring }.

(** How [client.GET('/npl/demo/Iou/')] settles: [{ data, error }], with
    [data.items] and [error.message] where they are defined, or a
    rejection. *)
Inductive settled : Type :=
| Fulfilled (data : option (list Iou)) (apiError : option (option jsstring))
| Rejected (err : thrown).

(** [loadIous] up to its [await]: [setLoading(true); setError(null)]. *)
Definition loadIous_begin (s : state) : state := mkState (ious s) true None.

(** [loadIous] from its [await] on, when [client.GET] has settled, on the
    state the component has at that moment (other reloads and handlers
    may have written to it in between): [setIous(data.items)] or
    [setError(...)], then [setLoading(false)]. *)
Definition loadIous_end (s : state) (o : settled) : state :=
  let failed (err : thrown) :=
    mkState (ious s) false
            (Some (match err with
                   | ErrorObject message => message
                   | OtherValue => js "Failed to load IOUs"
                   end)) in
  match o with
  | Fulfilled _ (Some message) =>
      failed (ErrorObject (orElse message (js "Failed to load IOUs")))
  | Fulfilled None None =>
      failed (ErrorObject (orElse None (js "Failed to load IOUs")))
  | Fulfilled (Some items) None => mkState items false (error s)
  | Rejected err => failed err
  end.

(** What [main] shows. *)
Inductive mainView : Type :=
| LoadingStateView
| EmptyState
| IouGrid (cards : list Iou).

Definition main (s : state) : mainView :=
  if loading s && Nat.eqb (List.length (ious s)) 0 then LoadingStateView
  else if Nat.eqb (List.length (ious s)) 0 then EmptyState
  else IouGrid (ious s).

(** Whether the error banner is shown: [error && ...]. *)
Definition banner (s : state) : bool :=
  match error s with
  | Some (_ :: _) => true
  | _ => false
  end.

End Ious.

End Dashboard.

(** * Properties *)

(** ** Strings *)

Lemma jseqb_eq (a b : jsstring) : jseqb a b = true <-> a = b.
Proof.
  revert b; induction a as [|x a IH]; intros [|y b]; simpl;
    try (split; [discriminate | discriminate]); try tauto.
  rewrite andb_true_iff, N.eqb_eq, IH.
  split; [intros [-> ->]; reflexivity | intros H; inversion H; auto].
Qed.

Lemma jseqb_refl (a : jsstring) : jseqb a a = true.
Proof. apply jseqb_eq; reflexivity. Qed.

Lemma jseqb_neq (a b : jsstring) : a <> b -> jseqb a b = false.
Proof.
  intros H; destruct (jseqb a b) eqn:E; [|reflexivity].
  apply jseqb_eq in E; contradiction.
Qed.

Lemma trimStart_nil (s : jsstring) :
  trimStart s = [] <-> forallb isWhiteSpace s = true.
Proof.
  induction s as [|c s IH]; simpl; [tauto|].
  destruct (isWhiteSpace c); simpl; [exact IH|].
  split; discriminate.
Qed.

Lemma trimStart_all_ws (s : jsstring) :
  forallb isWhiteSpace (trimStart s) = true -> trimStart s = [].
Proof.
  induction s as [|c s IH]; simpl; [reflexivity|].
  destruct (isWhiteSpace c) eqn:E; [exact IH|].
  simpl; rewrite E; discriminate.
Qed.

Lemma forallb_rev (f : N -> bool) (s : jsstring) :
  forallb f (rev s) = forallb f s.
Proof.
  induction s as [|c s IH]; simpl; [reflexivity|].
  rewrite forallb_app, IH; simpl.
  rewrite andb_true_r; apply andb_comm.
Qed.

(** [line.trim() === ''] holds exactly for lines made of white space. *)
Lemma trim_blank (s : jsstring) :
  jseqb (trim s) [] = forallb isWhiteSpace s.
Proof.
  destruct (forallb isWhiteSpace s) eqn:E.
  - apply jseqb_eq. unfold trim, trimEnd.
    apply trimStart_nil in E; rewrite E; reflexivity.
  - apply jseqb_neq. unfold trim, trimEnd. intros H.
    assert (H' : trimStart (rev (trimStart s)) = []).
    { apply (f_equal (@rev N)) in H. rewrite rev_involutive in H. exact H. }
    apply trimStart_nil in H'. rewrite forallb_rev in H'.
    apply trimStart_all_ws, trimStart_nil in H'. congruence.
Qed.

Lemma indexOf_absent (s : jsstring) (c : N) :
  ~ In c s -> indexOf s c = (-1)%Z.
Proof.
  induction s as [|x s IH]; simpl; intros H; [reflexivity|].
  destruct (N.eqb_spec x c) as [->|_]; [tauto|].
  rewrite IH by tauto. reflexivity.
Qed.

Lemma indexOf_first (name rest : jsstring) (c : N) :
  ~ In c name ->
  indexOf (name ++ c :: rest) c = Z.of_nat (List.length name).
Proof.
  induction name as [|x name IH]; simpl; intros H.
  - rewrite N.eqb_refl; reflexivity.
  - destruct (N.eqb_spec x c) as [->|_]; [tauto|].
    rewrite IH by tauto.
    destruct (Z.eqb_spec (Z.of_nat (List.length name)) (-1)); lia.
Qed.

Lemma slice_prefix (name rest : jsstring) :
  slice (name ++ rest) 0 (Z.of_nat (List.length name)) = name.
Proof.
  unfold slice, relIndex. rewrite length_app. simpl.
  destruct (Z.ltb_spec (Z.of_nat (List.length name)) 0); [lia|].
  rewrite Z.min_l by lia.
  replace (Z.min 0 _) with 0%Z by lia.
  rewrite Z.sub_0_r, Nat2Z.id. simpl.
  rewrite firstn_app, Nat.sub_diag, firstn_all. simpl.
  apply app_nil_r.
Qed.

Lemma sliceFrom_suffix (name rest : jsstring) :
  sliceFrom (name ++ rest) (Z.of_nat (List.length name)) = rest.
Proof.
  unfold sliceFrom, slice, relIndex. rewrite length_app.
  destruct (Z.ltb_spec (Z.of_nat (List.length name)) 0); [lia|].
  destruct (Z.ltb_spec (Z.of_nat (List.length name + List.length rest)) 0);
    [lia|].
  replace (Z.min (Z.of_nat (List.length name)) _)
    with (Z.of_nat (List.length name)) by lia.
  rewrite Z.min_id.
  rewrite Nat2Z.id, skipn_app, skipn_all, Nat.sub_diag. simpl.
  apply firstn_all2. lia.
Qed.

Lemma strip_slice (rest : jsstring) :
  (if startsWith rest [SPACE] then sliceFrom rest 1 else rest)
  = stripOneSpace rest.
Proof.
  destruct rest as [|c r]; [reflexivity|]. simpl.
  destruct (N.eqb c SPACE); [|reflexivity].
  destruct r; simpl; apply (sliceFrom_suffix [c]).
Qed.

Lemma startsWith_in (s : jsstring) (c : N) :
  startsWith s [c] = true -> In c s.
Proof.
  destruct s as [|x s]; simpl; [discriminate|].
  rewrite andb_true_iff, N.eqb_eq. intros [-> _]; auto.
Qed.

(** ** The three kinds of non-blank line *)

Lemma process_line_blank (cur : Partial.t) (line : jsstring) :
  forallb isWhiteSpace line = true ->
  process_line cur line = (Partial.empty, dispatch cur).
Proof. intros H. unfold process_line. rewrite trim_blank, H. reflexivity. Qed.

Lemma process_line_comment (cur : Partial.t) (line : jsstring) :
  forallb isWhiteSpace line = false ->
  startsWith line [COLON] = true ->
  process_line cur line = (cur, None).
Proof.
  intros H1 H2. unfold process_line. rewrite trim_blank, H1, H2. reflexivity.
Qed.

Lemma process_line_no_colon (cur : Partial.t) (line : jsstring) :
  forallb isWhiteSpace line = false ->
  ~ In COLON line ->
  process_line cur line = (cur, None).
Proof.
  intros H1 H2. unfold process_line. rewrite trim_blank, H1.
  destruct (startsWith line [COLON]); [reflexivity|].
  rewrite indexOf_absent by assumption. reflexivity.
Qed.

Lemma process_line_field (cur : Partial.t) (name rest : jsstring) :
  name <> [] ->
  ~ In COLON name ->
  forallb isWhiteSpace (name ++ COLON :: rest) = false ->
  process_line cur (name ++ COLON :: rest)
  = (switch_field cur name (stripOneSpace rest), None).
Proof.
  intros Hne Hin Hb. unfold process_line. rewrite trim_blank, Hb.
  destruct (startsWith (name ++ COLON :: rest) [COLON]) eqn:Es.
  - destruct name as [|x name]; [congruence|]. simpl in Es.
    rewrite andb_true_iff, N.eqb_eq in Es. destruct Es as [-> _].
    simpl in Hin; tauto.
  - rewrite indexOf_first by assumption.
    destruct (Z.eqb_spec (Z.of_nat (List.length name)) (-1)); [lia|].
    rewrite slice_prefix.
    replace (name ++ COLON :: rest) with ((name ++ [COLON]) ++ rest)
      by (rewrite <- app_assoc; reflexivity).
    replace (Z.of_nat (List.length name) + 1)%Z
      with (Z.of_nat (List.length (name ++ [COLON])))
      by (rewrite length_app; simpl; lia).
    rewrite sliceFrom_suffix, strip_slice. reflexivity.
Qed.

(** A line that is not blank never dispatches. *)
Lemma process_line_nonblank (cur : Partial.t) (line : jsstring) :
  forallb isWhiteSpace line = false ->
  snd (process_line cur line) = None.
Proof.
  intros H. unfold process_line. rewrite trim_blank, H.
  destruct (startsWith line [COLON]); [reflexivity|].
  destruct (indexOf line COLON =? -1)%Z; reflexivity.
Qed.

(** ** Splitting into lines *)

Lemma pop_snoc {A : Type} (l : list A) (x : A) : pop (l ++ [x]) = (Some x, l).
Proof.
  unfold pop. rewrite rev_app_distr. simpl. rewrite rev_involutive.
  reflexivity.
Qed.

Lemma split_nl_snoc (s : jsstring) :
  exists ls r, split_nl s = ls ++ [r].
Proof.
  induction s as [|c s (ls & r & E)]; simpl.
  - exists [], []. reflexivity.
  - destruct (N.eqb c NL).
    + exists ([] :: ls), r. rewrite E. reflexivity.
    + rewrite E. destruct ls as [|l ls]; simpl.
      * exists [], (c :: r). reflexivity.
      * exists ((c :: l) :: ls), r. reflexivity.
Qed.

Lemma orEmpty_some (s : jsstring) : orEmpty (Some s) = s.
Proof. destruct s; reflexivity. Qed.

Lemma take_lines_split (s : jsstring) (ls : list jsstring) (r : jsstring) :
  split_nl s = ls ++ [r] -> take_lines [] s = (ls, r).
Proof.
  intros E. unfold take_lines. simpl. rewrite E, pop_snoc, orEmpty_some.
  reflexivity.
Qed.

Lemma take_lines_buffer (buf text : jsstring) :
  take_lines buf text = take_lines [] (buf ++ text).
Proof. reflexivity. Qed.

Lemma take_lines_cons (c : N) (s : jsstring) :
  take_lines [] (c :: s) =
  let (ls, r) := take_lines [] s in
  if N.eqb c NL then ([] :: ls, r)
  else match ls with
       | [] => ([], c :: r)
       | l :: ls' => ((c :: l) :: ls', r)
       end.
Proof.
  destruct (split_nl_snoc s) as (ls & r & E).
  rewrite (take_lines_split s ls r E).
  destruct (N.eqb c NL) eqn:Ec.
  - apply (take_lines_split (c :: s) ([] :: ls) r). simpl. rewrite Ec, E.
    reflexivity.
  - destruct ls as [|l ls].
    + apply (take_lines_split (c :: s) [] (c :: r)). simpl. rewrite Ec, E.
      reflexivity.
    + apply (take_lines_split (c :: s) ((c :: l) :: ls) r). simpl.
      rewrite Ec, E. reflexivity.
Qed.

(** Lines cut from [a ++ b]: the lines of [a], then the lines of what [a]
    left pending followed by [b]. *)
Lemma take_lines_app (a b : jsstring) :
  take_lines [] (a ++ b) =
  let (la, ra) := take_lines [] a in
  let (lb, rb) := take_lines [] (ra ++ b) in
  (la ++ lb, rb).
Proof.
  induction a as [|c a IH].
  - simpl. destruct (take_lines [] b); reflexivity.
  - change ((c :: a) ++ b) with (c :: (a ++ b)).
    rewrite !take_lines_cons, IH.
    destruct (take_lines [] a) as [la ra].
    destruct (N.eqb c NL) eqn:Ec.
    + destruct (take_lines [] (ra ++ b)) as [lb rb]. reflexivity.
    + destruct la as [|l la].
      * change ((c :: ra) ++ b) with (c :: (ra ++ b)).
        rewrite take_lines_cons, Ec.
        destruct (take_lines [] (ra ++ b)) as [lb rb].
        destruct lb; reflexivity.
      * destruct (take_lines [] (ra ++ b)) as [lb rb]. reflexivity.
Qed.

Lemma process_lines_app (cur : Partial.t) (l1 l2 : list jsstring) :
  process_lines cur (l1 ++ l2) =
  let (cur1, m1) := process_lines cur l1 in
  let (cur2, m2) := process_lines cur1 l2 in
  (cur2, m1 ++ m2).
Proof.
  revert cur; induction l1 as [|l l1 IH]; intros cur; simpl.
  - destruct (process_lines cur l2); reflexivity.
  - destruct (process_line cur l) as [c m]. rewrite IH.
    destruct (process_lines c l1) as [c1 m1].
    destruct (process_lines c1 l2) as [c2 m2].
    rewrite app_assoc. reflexivity.
Qed.

(** Feeding [a ++ b] is feeding [a], then [b]. *)
Lemma feed_app (st : ParserState) (a b : jsstring) :
  feed st (a ++ b) =
  let (st1, m1) := feed st a in
  let (st2, m2) := feed st1 b in
  (st2, m1 ++ m2).
Proof.
  destruct st as [buf cur]. unfold feed. simpl buffer. simpl currentEvent.
  rewrite (take_lines_buffer buf (a ++ b)), app_assoc, take_lines_app.
  rewrite (take_lines_buffer buf a).
  destruct (take_lines [] (buf ++ a)) as [la ra].
  destruct (process_lines cur la) as [c1 m1] eqn:E1.
  simpl buffer. simpl currentEvent.
  rewrite (take_lines_buffer ra b).
  destruct (take_lines [] (ra ++ b)) as [lb rb].
  rewrite process_lines_app, E1.
  destruct (process_lines c1 lb) as [c2 m2]. reflexivity.
Qed.

Lemma feed_all_concat (st : ParserState) (c : jsstring) (cs : list jsstring) :
  feed_all st (c :: cs) = feed st (List.concat (c :: cs)).
Proof.
  revert st c; induction cs as [|c' cs IH]; intros st c.
  - simpl. rewrite app_nil_r. destruct (feed st c) as [st' ms].
    rewrite app_nil_r. reflexivity.
  - change (feed_all st (c :: c' :: cs))
      with (let (st', ms) := feed st c in
            let (st'', ms') := feed_all st' (c' :: cs) in (st'', ms ++ ms')).
    change (List.concat (c :: c' :: cs)) with (c ++ List.concat (c' :: cs)).
    rewrite feed_app. destruct (feed st c) as [st' ms].
    rewrite IH. reflexivity.
Qed.

(** C1.  Chunk-boundary invariance of the frame parser: whatever the way
    the text of a stream is cut into chunks, feeding the chunks one after
    the other from the initial state gives the same messages in the same
    order, and leaves the same buffer and accumulator, as feeding their
    concatenation as a single chunk. *)
Theorem chunk_boundary_invariance (chunks : list jsstring) :
  feed_all initial chunks = feed initial (List.concat chunks).
Proof.
  destruct chunks as [|c cs]; [reflexivity|].
  apply feed_all_concat.
Qed.

(** Scenario B: ["data: par"] then ["t1\n\n"]. *)
Example split_mid_line :
  snd (feed_all initial [js "data: par"; js "t1" ++ [NL; NL]])
  = [SSEMessage.mk None (js "part1") None].
Proof. reflexivity. Qed.

(** ** Field lines *)

Lemma trim_nil_iff (s : jsstring) :
  trim s = [] <-> forallb isWhiteSpace s = true.
Proof. rewrite <- trim_blank. symmetry. apply jseqb_eq. Qed.

Lemma nonblank_false (s : jsstring) :
  nonblank s -> forallb isWhiteSpace s = false.
Proof.
  intros H. destruct (forallb isWhiteSpace s) eqn:E; [|reflexivity].
  apply trim_nil_iff in E. contradiction.
Qed.

Lemma splitColon_some (line name rest : jsstring) :
  splitColon line = Some (name, rest) ->
  line = name ++ COLON :: rest /\ ~ In COLON name.
Proof.
  revert name rest; induction line as [|c r IH]; intros name rest; simpl.
  - discriminate.
  - destruct (N.eqb_spec c COLON) as [->|Hc].
    + intros H; inversion H; subst. split; [reflexivity | simpl; tauto].
    + destruct (splitColon r) as [[n v]|]; [|discriminate].
      intros H; inversion H; subst.
      destruct (IH n rest eq_refl) as [-> Hn].
      split; [reflexivity | simpl; intros [E|E]; [congruence | tauto]].
Qed.

Lemma splitColon_none (line : jsstring) :
  splitColon line = None -> ~ In COLON line.
Proof.
  induction line as [|c r IH]; simpl; [tauto|].
  destruct (N.eqb_spec c COLON) as [->|Hc]; [discriminate|].
  destruct (splitColon r) as [[n v]|]; [discriminate|].
  intros _ [E|E]; [congruence | tauto].
Qed.

(** A non-blank line only updates the accumulator, with its field if it
    has one. *)
Lemma process_line_fieldOf (cur : Partial.t) (line : jsstring) :
  nonblank line ->
  process_line cur line
  = (match fieldOf line with
     | Some (name, value) => switch_field cur name value
     | None => cur
     end, None).
Proof.
  intros Hb. apply nonblank_false in Hb. unfold fieldOf.
  destruct (splitColon line) as [[name rest]|] eqn:E.
  - destruct (splitColon_some _ _ _ E) as [-> Hn].
    destruct name as [|c name].
    + apply process_line_comment; [assumption | destruct rest; reflexivity].
    + apply process_line_field; [discriminate | assumption | assumption].
  - apply process_line_no_colon; [assumption | apply splitColon_none, E].
Qed.

(** A line starts with [name ++ ":"] exactly when [name] is what precedes
    its first colon. *)
Lemma startsWith_splitColon (name line : jsstring) :
  ~ In COLON name ->
  startsWith line (name ++ [COLON])
  = match splitColon line with
    | Some (n, _) => jseqb n name
    | None => false
    end.
Proof.
  revert line; induction name as [|y name IH]; intros line Hn.
  - destruct line as [|x r]; cbn [startsWith splitColon app]; [reflexivity|].
    destruct (N.eqb x COLON); cbn [andb jseqb].
    + reflexivity.
    + destruct (splitColon r) as [[n v]|]; reflexivity.
  - destruct line as [|x r]; cbn [startsWith splitColon app]; [reflexivity|].
    assert (Hy : y <> COLON) by (simpl in Hn; intuition congruence).
    rewrite IH by (simpl in Hn; tauto).
    destruct (N.eqb_spec x COLON) as [->|Hx].
    + cbn [jseqb]. destruct (N.eqb_spec COLON y); [congruence | reflexivity].
    + destruct (splitColon r) as [[n v]|]; cbn [jseqb];
        [reflexivity | apply andb_false_r].
Qed.

Lemma skipn_splitColon (line name rest : jsstring) :
  splitColon line = Some (name, rest) ->
  skipn (S (List.length name)) line = rest.
Proof.
  intros H. destruct (splitColon_some _ _ _ H) as [-> _].
  replace (name ++ COLON :: rest) with ((name ++ [COLON]) ++ rest)
    by (rewrite <- app_assoc; reflexivity).
  rewrite skipn_app.
  replace (S (List.length name)) with (List.length (name ++ [COLON]))
    by (rewrite length_app; simpl; lia).
  rewrite skipn_all, Nat.sub_diag. reflexivity.
Qed.

Lemma dataValue_fieldOf (line : jsstring) :
  dataValue line
  = match fieldOf line with
    | Some (name, value) => if jseqb name (js "data") then Some value else None
    | None => None
    end.
Proof.
  unfold dataValue, fieldOf.
  change (js "data:") with (js "data" ++ [COLON]).
  rewrite startsWith_splitColon by (simpl; intuition discriminate).
  destruct (splitColon line) as [[name rest]|] eqn:E; [|reflexivity].
  destruct (jseqb name (js "data")) eqn:En.
  - apply jseqb_eq in En; subst name.
    change 5%nat with (S (List.length (js "data"))).
    rewrite (skipn_splitColon line (js "data") rest E). reflexivity.
  - destruct name; [reflexivity | rewrite En; reflexivity].
Qed.

Lemma switch_field_data (cur : Partial.t) (name value : jsstring) :
  Partial.data (switch_field cur name value)
  = if jseqb name (js "data")
    then Some (join_data (Partial.data cur) value)
    else Partial.data cur.
Proof.
  unfold switch_field.
  destruct (jseqb name (js "event")) eqn:E1.
  - apply jseqb_eq in E1; subst. reflexivity.
  - destruct (jseqb name (js "data")); [reflexivity|].
    destruct (jseqb name (js "id")); [reflexivity|].
    destruct (jseqb name (js "retry")); reflexivity.
Qed.

Lemma switch_field_event (cur : Partial.t) (name value : jsstring) :
  Partial.event (switch_field cur name value)
  = if jseqb name (js "event") then Some value else Partial.event cur.
Proof.
  unfold switch_field.
  destruct (jseqb name (js "event")); [reflexivity|].
  destruct (jseqb name (js "data")); [reflexivity|].
  destruct (jseqb name (js "id")); [reflexivity|].
  destruct (jseqb name (js "retry")); reflexivity.
Qed.

(** What a non-blank line does to the [data] of the accumulator. *)
Lemma process_line_data (cur : Partial.t) (line : jsstring) :
  nonblank line ->
  Partial.data (fst (process_line cur line))
  = match dataValue line with
    | Some value => Some (join_data (Partial.data cur) value)
    | None => Partial.data cur
    end.
Proof.
  intros Hb. rewrite (process_line_fieldOf cur line Hb), dataValue_fieldOf.
  simpl. destruct (fieldOf line) as [[name value]|]; [|reflexivity].
  rewrite switch_field_data. destruct (jseqb name (js "data")); reflexivity.
Qed.

(** A line other than an [event:] line leaves [event] as it was. *)
Lemma process_line_event (cur : Partial.t) (line : jsstring) :
  nonblank line ->
  startsWith line (js "event:") = false ->
  Partial.event (fst (process_line cur line)) = Partial.event cur.
Proof.
  intros Hb He. rewrite (process_line_fieldOf cur line Hb). simpl.
  change (js "event:") with (js "event" ++ [COLON]) in He.
  rewrite startsWith_splitColon in He by (simpl; intuition discriminate).
  unfold fieldOf. destruct (splitColon line) as [[name rest]|]; [|reflexivity].
  destruct name as [|c name]; [reflexivity|].
  rewrite switch_field_event, He. reflexivity.
Qed.

(** ** Blocks: non-blank lines up to a blank line *)

Lemma block_quiet (cur : Partial.t) (block : list jsstring) :
  Forall nonblank block -> snd (process_lines cur block) = [].
Proof.
  intros H; revert cur; induction H as [|l block Hl _ IH]; intros cur; simpl.
  - reflexivity.
  - pose proof (process_line_nonblank cur l (nonblank_false l Hl)) as E.
    destruct (process_line cur l) as [c m]. simpl in E; subst m.
    specialize (IH c). destruct (process_lines c block) as [c' ms].
    simpl in IH; subst ms. reflexivity.
Qed.

Lemma block_data (cur : Partial.t) (block : list jsstring) :
  Forall nonblank block ->
  Partial.data (fst (process_lines cur block))
  = fold_left (fun d v => Some (join_data d v)) (dataValues block)
              (Partial.data cur).
Proof.
  intros H; revert cur; induction H as [|l block Hl _ IH]; intros cur; simpl.
  - reflexivity.
  - pose proof (process_line_data cur l Hl) as E.
    destruct (process_line cur l) as [c m]. simpl in E.
    specialize (IH c). destruct (process_lines c block) as [c' ms].
    simpl in IH |- *. rewrite IH, E, fold_left_app.
    destruct (dataValue l); reflexivity.
Qed.

Lemma block_event (cur : Partial.t) (block : list jsstring) :
  Forall nonblank block ->
  Forall (fun l => startsWith l (js "event:") = false) block ->
  Partial.event (fst (process_lines cur block)) = Partial.event cur.
Proof.
  intros H; revert cur; induction H as [|l block Hl _ IH]; intros cur He;
    simpl.
  - reflexivity.
  - inversion He as [|? ? He1 He2]; subst.
    pose proof (process_line_event cur l Hl He1) as E.
    destruct (process_line cur l) as [c m]. simpl in E.
    specialize (IH c He2). destruct (process_lines c block) as [c' ms].
    simpl in IH |- *. congruence.
Qed.

(** A block and the blank line that ends it. *)
Lemma block_then_blank (cur : Partial.t) (block : list jsstring)
      (b : jsstring) :
  Forall nonblank block -> trim b = [] ->
  process_lines cur (block ++ [b])
  = (Partial.empty, optlist (dispatch (fst (process_lines cur block)))).
Proof.
  intros Hb Hblank. rewrite process_lines_app.
  pose proof (block_quiet cur block Hb) as Eq.
  destruct (process_lines cur block) as [c ms]. simpl in Eq; subst ms.
  simpl. rewrite process_line_blank by (apply trim_nil_iff; assumption).
  rewrite app_nil_r. reflexivity.
Qed.

Lemma join_nl_cons (x : jsstring) (vs : list jsstring) :
  join_nl (x :: vs) = x ++ flat_map (fun v => NL :: v) vs.
Proof.
  revert x; induction vs as [|y vs IH]; intros x.
  - simpl. symmetry; apply app_nil_r.
  - change (join_nl (x :: y :: vs)) with (x ++ NL :: join_nl (y :: vs)).
    rewrite IH. reflexivity.
Qed.

Lemma join_data_fold (c : N) (d : jsstring) (vs : list jsstring) :
  fold_left (fun d v => Some (join_data d v)) vs (Some (c :: d))
  = Some (join_nl ((c :: d) :: vs)).
Proof.
  revert c d; induction vs as [|v vs IH]; intros c d.
  - reflexivity.
  - cbn [fold_left join_data]. cbn [app]. rewrite IH, !join_nl_cons.
    cbn [flat_map app]. rewrite <- app_assoc. reflexivity.
Qed.

Lemma idOrEvent_nonblank (line : jsstring) : idOrEvent line -> nonblank line.
Proof.
  intros H Ht. apply trim_nil_iff in Ht.
  destruct line as [|c line]; [destruct H; discriminate|].
  simpl in Ht. apply andb_true_iff in Ht. destruct Ht as [Hc _].
  destruct H as [H|H]; simpl in H; apply andb_true_iff in H;
    destruct H as [H _]; apply N.eqb_eq in H; subst c; discriminate.
Qed.

Lemma idOrEvent_no_data (line : jsstring) :
  idOrEvent line -> dataValue line = None.
Proof.
  intros H. unfold dataValue.
  destruct line as [|c line]; [reflexivity|].
  destruct H as [H|H]; simpl in H; apply andb_true_iff in H;
    destruct H as [H _]; apply N.eqb_eq in H; subst c; reflexivity.
Qed.

Lemma colon_line_nonblank (name rest : jsstring) :
  nonblank (name ++ COLON :: rest).
Proof.
  intros H. apply trim_nil_iff in H. rewrite forallb_app in H.
  apply andb_true_iff in H. destruct H as [_ H]. discriminate.
Qed.

Lemma take_lines_line (l s : jsstring) :
  ~ In NL l ->
  take_lines [] (l ++ NL :: s)
  = let (ls, r) := take_lines [] s in (l :: ls, r).
Proof.
  induction l as [|c l IH]; intros H.
  - cbn [app]. rewrite take_lines_cons. reflexivity.
  - change ((c :: l) ++ NL :: s) with (c :: (l ++ NL :: s)).
    rewrite take_lines_cons, IH by (simpl in H; tauto).
    destruct (take_lines [] s) as [ls r].
    destruct (N.eqb_spec c NL) as [->|_]; [simpl in H; tauto | reflexivity].
Qed.

Lemma take_lines_pending (s : jsstring) :
  ~ In NL s -> take_lines [] s = ([], s).
Proof.
  induction s as [|c s IH]; intros H; [reflexivity|].
  rewrite take_lines_cons, IH by (simpl in H; tauto).
  destruct (N.eqb_spec c NL) as [->|_]; [simpl in H; tauto | reflexivity].
Qed.

Lemma for_lines_silent (onMessage : option handler) (a : attempt)
      (cur : Partial.t) (lines : list jsstring) :
  snd (process_lines cur lines) = [] ->
  for_lines onMessage a cur lines = (a, inl (fst (process_lines cur lines))).
Proof.
  revert cur; induction lines as [|l lines IH]; intros cur; simpl.
  - reflexivity.
  - destruct (process_line cur l) as [c m].
    specialize (IH c). destruct (process_lines c lines) as [c' ms].
    simpl in IH |- *. intros E. apply app_eq_nil in E. destruct E as [Em ->].
    destruct m; [discriminate|]. apply IH. reflexivity.
Qed.

(** ** The claims about the frame parser *)

(** C2, as stated, fails: the message for ["data: x\n\n"] carries no
    ["message"] label. *)
Lemma no_default_event_label :
  ~ (forall m, In m (snd (feed initial (js "data: x" ++ [NL; NL]))) ->
               SSEMessage.event m = Some (js "message")).
Proof.
  intros H. specialize (H (SSEMessage.mk None (js "x") None)).
  assert (E : SSEMessage.event (SSEMessage.mk None (js "x") None)
              = Some (js "message")) by (apply H; left; reflexivity).
  discriminate E.
Qed.

(** C2 (amended).  For a block of non-blank lines with no [event:] line,
    ended by a blank line, every message handed to [onMessage] has its
    [event] undefined: no default label is put in its place. *)
Theorem event_absent_without_event_line
        (block : list jsstring) (b : jsstring) (m : SSEMessage.t) :
  Forall nonblank block ->
  Forall (fun l => startsWith l (js "event:") = false) block ->
  trim b = [] ->
  In m (snd (process_lines Partial.empty (block ++ [b]))) ->
  SSEMessage.event m = None.
Proof.
  intros Hb He Hblank. rewrite (block_then_blank _ _ _ Hb Hblank).
  pose proof (block_event Partial.empty block Hb He) as E.
  unfold dispatch. simpl snd.
  destruct (Partial.data (fst (process_lines Partial.empty block)))
    as [[|c d]|]; simpl; try tauto.
  intros [<-|[]]. exact E.
Qed.

Lemma event_absent_without_event_line_witness :
  In (SSEMessage.mk None (js "x") None)
     (snd (process_lines Partial.empty ([js "data: x"] ++ [[]])))
  /\ SSEMessage.event (SSEMessage.mk None (js "x") None) = None.
Proof.
  split; [left; reflexivity|].
  apply (event_absent_without_event_line [js "data: x"] []).
  - repeat constructor. intros H; vm_compute in H; discriminate H.
  - repeat constructor.
  - reflexivity.
  - left; reflexivity.
Defined.

(** C3, as stated, fails: after an empty first value the next value is
    set, not joined, so ["data:"], ["data: b"] gives ["b"], not
    ["\nb"]. *)
Lemma leading_empty_data_value_not_joined :
  Forall nonblank [js "data:"; js "data: b"]
  /\ dataValues [js "data:"; js "data: b"] = [[]; js "b"]
  /\ ~ (exists m,
         snd (process_lines Partial.empty ([js "data:"; js "data: b"] ++ [[]]))
         = [m]
         /\ SSEMessage.data m
            = join_nl (dataValues [js "data:"; js "data: b"])).
Proof.
  split; [|split].
  - repeat constructor; intros H; vm_compute in H; discriminate H.
  - reflexivity.
  - intros (m & E & D). vm_compute in E. injection E as <-.
    vm_compute in D. discriminate D.
Qed.

(** C3 (amended).  For a block of non-blank lines whose [data] lines
    carry the values [v1 .. vn] in arrival order, with [v1] not empty, the
    blank line that ends the block hands exactly one message to
    [onMessage], and its [data] is [v1 .. vn] joined with single newlines
    in that order. *)
Theorem data_joined_in_arrival_order
        (block : list jsstring) (b v1 : jsstring) (vs : list jsstring) :
  Forall nonblank block ->
  trim b = [] ->
  dataValues block = v1 :: vs ->
  v1 <> [] ->
  exists m,
    process_lines Partial.empty (block ++ [b]) = (Partial.empty, [m])
    /\ SSEMessage.data m = join_nl (v1 :: vs).
Proof.
  intros Hb Hblank Hv Hne. rewrite (block_then_blank _ _ _ Hb Hblank).
  pose proof (block_data Partial.empty block Hb) as E. rewrite Hv in E.
  destruct v1 as [|c d]; [congruence|].
  cbn [fold_left Partial.data Partial.empty join_data] in E.
  rewrite join_data_fold in E.
  unfold dispatch. rewrite E.
  rewrite join_nl_cons. cbn [app].
  eexists. split; [reflexivity|].
  cbn [SSEMessage.data]. rewrite join_nl_cons. reflexivity.
Qed.

Lemma data_joined_in_arrival_order_witness :
  exists m,
    process_lines Partial.empty ([js "data: a"; js "data: b"] ++ [[]])
    = (Partial.empty, [m])
    /\ SSEMessage.data m = join_nl [js "a"; js "b"].
Proof.
  apply (data_joined_in_arrival_order [js "data: a"; js "data: b"] []).
  - repeat constructor; intros H; vm_compute in H; discriminate H.
  - reflexivity.
  - reflexivity.
  - discriminate.
Defined.

(** [data: a], [data: b], blank line, as one fragment. *)
Example two_data_lines :
  snd (feed initial (js "data: a" ++ NL :: js "data: b" ++ [NL; NL]))
  = [SSEMessage.mk None (js "a" ++ NL :: js "b") None].
Proof. reflexivity. Qed.

(** C4.  A message is handed to [onMessage] only at a blank line and only
    when the accumulated [data] is not empty; every blank line resets the
    accumulator; a block of [id:] and [event:] lines ended by a blank line
    hands over nothing, and the loop completes normally; blank lines that
    follow a blank line hand over nothing more. *)
Theorem dispatch_only_on_blank_line_with_data :
  (forall cur line m,
      snd (process_line cur line) = Some m ->
      trim line = []
      /\ exists c d,
          Partial.data cur = Some (c :: d)
          /\ m = SSEMessage.mk (Partial.event cur) (c :: d) (Partial.id cur))
  /\ (forall cur line,
         trim line = [] -> fst (process_line cur line) = Partial.empty)
  /\ (forall block b,
         Forall idOrEvent block -> trim b = [] ->
         process_lines Partial.empty (block ++ [b]) = (Partial.empty, [])
         /\ forall onMessage a,
             for_lines onMessage a Partial.empty (block ++ [b])
             = (a, inl Partial.empty))
  /\ (forall cur b blanks,
         trim b = [] -> Forall (fun l => trim l = []) blanks ->
         snd (process_lines cur (b :: blanks)) = optlist (dispatch cur)).
Proof.
  split; [|split; [|split]].
  - intros cur line m H.
    destruct (forallb isWhiteSpace line) eqn:E.
    + split; [apply trim_nil_iff; assumption|].
      rewrite (process_line_blank cur line E) in H. simpl in H.
      unfold dispatch in H.
      destruct (Partial.data cur) as [[|c d]|]; try discriminate.
      injection H as <-. exists c, d. split; reflexivity.
    + rewrite (process_line_nonblank cur line E) in H. discriminate.
  - intros cur line H. apply trim_nil_iff in H.
    rewrite (process_line_blank cur line H). reflexivity.
  - intros block b Hb Hblank.
    assert (Hn : Forall nonblank block).
    { eapply Forall_impl; [|exact Hb]. apply idOrEvent_nonblank. }
    assert (Hd : dataValues block = []).
    { clear Hn. induction Hb as [|l block Hl _ IH]; [reflexivity|].
      unfold dataValues in *. simpl.
      rewrite (idOrEvent_no_data l Hl), IH. reflexivity. }
    assert (E : process_lines Partial.empty (block ++ [b])
                = (Partial.empty, [])).
    { rewrite (block_then_blank _ _ _ Hn Hblank).
      pose proof (block_data Partial.empty block Hn) as E.
      rewrite Hd in E. simpl in E. unfold dispatch. rewrite E. reflexivity. }
    split; [exact E|]. intros onMessage a.
    rewrite for_lines_silent; rewrite E; reflexivity.
  - intros cur b blanks Hb Hbs. simpl.
    rewrite process_line_blank by (apply trim_nil_iff; assumption).
    assert (E : process_lines Partial.empty blanks = (Partial.empty, [])).
    { induction Hbs as [|l blanks Hl _ IH]; [reflexivity|]. simpl.
      rewrite process_line_blank by (apply trim_nil_iff; assumption).
      rewrite IH. reflexivity. }
    rewrite E. simpl. apply app_nil_r.
Qed.

Lemma dispatch_only_on_blank_line_with_data_witness :
  (trim [SPACE] = []
   /\ exists c d,
       Some (js "x") = Some (c :: d)
       /\ SSEMessage.mk None (js "x") (Some (js "7"))
          = SSEMessage.mk None (c :: d) (Some (js "7")))
  /\ fst (process_line (Partial.mk None (Some (js "x")) None) [CR])
     = Partial.empty
  /\ process_lines Partial.empty ([js "id: 1"; js "event: state"] ++ [[]])
     = (Partial.empty, [])
  /\ snd (process_lines (Partial.mk None (Some (js "x")) None) [[]; []; [CR]])
     = [SSEMessage.mk None (js "x") None].
Proof.
  destruct dispatch_only_on_blank_line_with_data as (H1 & H2 & H3 & H4).
  split; [|split; [|split]].
  - apply (H1 (Partial.mk None (Some (js "x")) (Some (js "7"))) [SPACE]).
    reflexivity.
  - apply H2. reflexivity.
  - apply (H3 [js "id: 1"; js "event: state"] []); [|reflexivity].
    apply Forall_cons; [left; reflexivity|].
    apply Forall_cons; [right; reflexivity|]. apply Forall_nil.
  - apply (H4 (Partial.mk None (Some (js "x")) None) [] [[]; [CR]]).
    + reflexivity.
    + repeat constructor.
Defined.

(** C6.  For a line that is not blank: a line that begins with [':'] and
    a line without [':'] leave the accumulator as it was; any other line
    is cut at its first [':'], what precedes it is the field name, and
    the value is what follows it less one leading space, if there is
    one. *)
Theorem line_rules (cur : Partial.t) (line : jsstring) :
  nonblank line ->
  (startsWith line [COLON] = true -> process_line cur line = (cur, None))
  /\ (~ In COLON line -> process_line cur line = (cur, None))
  /\ (forall name rest,
         name <> [] -> ~ In COLON name -> line = name ++ COLON :: rest ->
         process_line cur line
         = (switch_field cur name (stripOneSpace rest), None))
  /\ (forall rest, stripOneSpace (SPACE :: rest) = rest)
  /\ (forall rest,
         startsWith rest [SPACE] = false -> stripOneSpace rest = rest).
Proof.
  intros Hb. pose proof (nonblank_false line Hb) as Hw.
  split; [|split; [|split; [|split]]].
  - intros H. apply process_line_comment; assumption.
  - intros H. apply process_line_no_colon; assumption.
  - intros name rest Hne Hn ->. apply process_line_field; assumption.
  - reflexivity.
  - intros [|c r] H; [reflexivity|]. simpl in H |- *.
    rewrite andb_true_r in H. rewrite H. reflexivity.
Qed.

Lemma line_rules_witness :
  (process_line Partial.empty (js ":heartbeat") = (Partial.empty, None))
  /\ process_line Partial.empty (js "data:  two")
     = (switch_field Partial.empty (js "data") (js " two"), None).
Proof.
  split.
  - destruct (line_rules Partial.empty (js ":heartbeat")) as (H & _).
    + intros H; vm_compute in H; discriminate H.
    + apply H. reflexivity.
  - destruct (line_rules Partial.empty (js "data:  two")) as (_ & _ & H & _).
    + intros H; vm_compute in H; discriminate H.
    + apply (H (js "data") (js "  two")).
      * discriminate.
      * vm_compute. intuition discriminate.
      * reflexivity.
Defined.

(** C9.  Field names are compared as they are: a name other than
    [event], [data] and [id] leaves the accumulator completely unchanged,
    [retry] included, and so do [Event: x], [DATA: y] and [data : z]. *)
Theorem field_names_exact (cur : Partial.t) :
  (forall name rest,
      name <> [] -> ~ In COLON name ->
      name <> js "event" -> name <> js "data" -> name <> js "id" ->
      process_line cur (name ++ COLON :: rest) = (cur, None))
  /\ process_line cur (js "Event: x") = (cur, None)
  /\ process_line cur (js "DATA: y") = (cur, None)
  /\ process_line cur (js "data : z") = (cur, None)
  /\ process_line cur (js "retry: 3000") = (cur, None)
  /\ (forall v,
         process_line cur (js "event:" ++ v)
         = (Partial.mk (Some (stripOneSpace v)) (Partial.data cur)
                       (Partial.id cur), None))
  /\ (forall v,
         process_line cur (js "data:" ++ v)
         = (Partial.mk (Partial.event cur)
                       (Some (join_data (Partial.data cur) (stripOneSpace v)))
                       (Partial.id cur), None))
  /\ (forall v,
         process_line cur (js "id:" ++ v)
         = (Partial.mk (Partial.event cur) (Partial.data cur)
                       (Some (stripOneSpace v)), None)).
Proof.
  assert (G : forall name rest,
             name <> [] -> ~ In COLON name ->
             name <> js "event" -> name <> js "data" -> name <> js "id" ->
             process_line cur (name ++ COLON :: rest) = (cur, None)).
  { intros name rest Hne Hn He Hd Hi.
    rewrite process_line_field
      by (try assumption; apply nonblank_false, colon_line_nonblank).
    unfold switch_field.
    rewrite (jseqb_neq _ _ He), (jseqb_neq _ _ Hd), (jseqb_neq _ _ Hi).
    destruct (jseqb name (js "retry")); reflexivity. }
  assert (F : forall name v,
             name <> [] -> ~ In COLON name ->
             process_line cur (name ++ COLON :: v)
             = (switch_field cur name (stripOneSpace v), None)).
  { intros name v Hne Hn. apply process_line_field; try assumption.
    apply nonblank_false, colon_line_nonblank. }
  split; [exact G|].
  split; [apply (G (js "Event") (js " x")); vm_compute;
          intuition discriminate|].
  split; [apply (G (js "DATA") (js " y")); vm_compute;
          intuition discriminate|].
  split; [apply (G (js "data ") (js " z")); vm_compute;
          intuition discriminate|].
  split; [apply (G (js "retry") (js " 3000")); vm_compute;
          intuition discriminate|].
  split; [|split]; intros v.
  - apply (F (js "event") v); vm_compute; intuition discriminate.
  - apply (F (js "data") v); vm_compute; intuition discriminate.
  - apply (F (js "id") v); vm_compute; intuition discriminate.
Qed.

Lemma field_names_exact_witness :
  process_line (Partial.mk None (Some (js "kept")) None)
               (js "Data" ++ COLON :: js " lost")
  = (Partial.mk None (Some (js "kept")) None, None).
Proof.
  apply (field_names_exact (Partial.mk None (Some (js "kept")) None));
    vm_compute; intuition discriminate.
Defined.

(** C10.  Text is cut into lines at ['\n'] only (text without it
    completes no line, and a segment up to the first ['\n'] is a line as
    it is), and values are not trimmed on the right: the bytes of
    [data: v] followed by CR LF leave [v] followed by CR as the
    accumulated data, and a line that is a lone CR ends the record like
    any blank line. *)
Theorem crlf_input :
  (forall s, ~ In NL s -> take_lines [] s = ([], s))
  /\ (forall l s,
         ~ In NL l ->
         take_lines [] (l ++ NL :: s)
         = (l :: fst (take_lines [] s), snd (take_lines [] s)))
  /\ (forall v,
         ~ In NL v ->
         feed initial (js "data: " ++ v ++ [CR; NL])
         = (mkParser [] (Partial.mk None (Some (v ++ [CR])) None), []))
  /\ (forall cur, process_line cur [CR] = (Partial.empty, dispatch cur))
  /\ (forall v,
         ~ In NL v ->
         feed initial (js "data: " ++ v ++ [CR; NL; CR; NL])
         = (initial, [SSEMessage.mk None (v ++ [CR]) None])).
Proof.
  assert (L : forall v, ~ In NL v -> ~ In NL (js "data: " ++ v ++ [CR])).
  { intros v H Hin. apply in_app_or in Hin. destruct Hin as [Hin|Hin].
    - vm_compute in Hin. intuition discriminate.
    - apply in_app_or in Hin. destruct Hin as [Hin|Hin]; [tauto|].
      vm_compute in Hin. intuition discriminate. }
  assert (P : forall v,
             process_line Partial.empty (js "data: " ++ v ++ [CR])
             = (Partial.mk None (Some (v ++ [CR])) None, None)).
  { intros v.
    change (js "data: " ++ v ++ [CR])
      with (js "data" ++ COLON :: SPACE :: v ++ [CR]).
    rewrite process_line_field; [reflexivity | discriminate | |].
    - vm_compute. intuition discriminate.
    - apply nonblank_false, colon_line_nonblank. }
  split; [exact take_lines_pending|].
  split.
  { intros l s H. rewrite take_lines_line by assumption.
    destruct (take_lines [] s); reflexivity. }
  split; [|split].
  - intros v H. unfold feed. cbn [buffer currentEvent initial].
    rewrite take_lines_buffer. cbn [app].
    replace (js "data: " ++ v ++ [CR; NL])
      with ((js "data: " ++ v ++ [CR]) ++ NL :: [])
      by (rewrite <- !app_assoc; reflexivity).
    rewrite take_lines_line by (apply L; assumption).
    replace (take_lines [] []) with (@nil jsstring, @nil N) by reflexivity.
    cbn [process_lines]. rewrite P. reflexivity.
  - intros cur. reflexivity.
  - intros v H. unfold feed. cbn [buffer currentEvent initial].
    rewrite take_lines_buffer. cbn [app].
    replace (js "data: " ++ v ++ [CR; NL; CR; NL])
      with ((js "data: " ++ v ++ [CR]) ++ NL :: [CR; NL])
      by (rewrite <- !app_assoc; reflexivity).
    rewrite take_lines_line by (apply L; assumption).
    replace (take_lines [] [CR; NL]) with ([[CR]], @nil N) by reflexivity.
    cbn [process_lines]. rewrite P.
    destruct v; reflexivity.
Qed.

Lemma crlf_input_witness :
  take_lines [] (js "a" ++ CR :: js "b") = ([], js "a" ++ CR :: js "b")
  /\ feed initial (js "data: " ++ js "x" ++ [CR; NL])
     = (mkParser [] (Partial.mk None (Some (js "x" ++ [CR])) None), [])
  /\ feed initial (js "data: " ++ js "x" ++ [CR; NL; CR; NL])
     = (initial, [SSEMessage.mk None (js "x" ++ [CR]) None]).
Proof.
  destruct crlf_input as (H1 & _ & H2 & _ & H4).
  split; [|split].
  - apply H1. vm_compute. intuition discriminate.
  - apply H2. vm_compute. intuition discriminate.
  - apply H4. vm_compute. intuition discriminate.
Defined.

(** ** The attempt: callbacks, cancellation, end of stream *)

Lemma errors_app (l1 l2 : list call) :
  errors (l1 ++ l2) = errors l1 ++ errors l2.
Proof. apply flat_map_app. Qed.

Lemma errors_log_message (a : attempt) (m : SSEMessage.t) :
  errors (calls (log a (OnMessage m))) = errors (calls a).
Proof. simpl. rewrite errors_app. apply app_nil_r. Qed.

(** The line loop touches neither [isSubscribed] nor the suspension,
    never clears [aborted], and calls only [onMessage]. *)
Lemma for_lines_inv (onMessage : option handler) (lines : list jsstring)
      (a : attempt) (cur : Partial.t) :
  let a' := fst (for_lines onMessage a cur lines) in
  isSubscribed a' = isSubscribed a
  /\ at_ a' = at_ a
  /\ (aborted a = true -> aborted a' = true)
  /\ errors (calls a') = errors (calls a).
Proof.
  revert a cur; induction lines as [|l lines IH]; intros a cur; simpl.
  - auto.
  - destruct (process_line cur l) as [c m].
    destruct m as [m|]; [|apply IH].
    destruct onMessage as [h|]; [|apply IH].
    set (a1 := log a (OnMessage m)).
    set (a2 := if disconnects (h (calls a) m) then disconnect a1 else a1).
    assert (H2 : isSubscribed a2 = isSubscribed a /\ at_ a2 = at_ a
                  /\ (aborted a = true -> aborted a2 = true)
                  /\ errors (calls a2) = errors (calls a)).
    { subst a2. unfold disconnect.
      destruct (disconnects (h (calls a) m)); [destruct (refCurrent a1)|];
        simpl; rewrite errors_app, app_nil_r; auto. }
    destruct H2 as (S2 & T2 & B2 & E2).
    destruct (throws (h (calls a) m)) as [e|].
    + simpl. auto.
    + destruct (IH a2 c) as (S3 & T3 & B3 & E3).
      rewrite S3, T3, E3. repeat split; auto.
Qed.

Lemma catch_at (onError : bool) (a : attempt) (e : thrown) :
  at_ (catch onError a e) = Returned.
Proof. reflexivity. Qed.

Lemma catch_cancelled (onError : bool) (a : attempt) (e : thrown) :
  cancelled a -> calls (catch onError a e) = calls a.
Proof.
  unfold catch. intros [H|H]; rewrite H; simpl;
    [reflexivity | rewrite andb_false_r; reflexivity].
Qed.

Lemma catch_calls (onError : bool) (a : attempt) (e : thrown) :
  calls (catch onError a e) = calls a
  \/ (aborted a = false /\ isSubscribed a = true
      /\ calls (catch onError a e) = calls a ++ [OnError (asError e)]).
Proof.
  unfold catch. destruct (aborted a), (isSubscribed a), onError; simpl; auto.
Qed.

Lemma loop_head_calls (a : attempt) (st : ParserState) :
  calls (loop_head a st) = calls a.
Proof. unfold loop_head. destruct (isSubscribed a); reflexivity. Qed.

(** Once [connect()] has returned, nothing calls back any more. *)
Lemma step_returned (onMessage : option handler) (onError : bool)
      (a : attempt) (ev : event) :
  at_ a = Returned ->
  at_ (step onMessage onError a ev) = Returned
  /\ calls (step onMessage onError a ev) = calls a.
Proof.
  intros H. unfold step. rewrite H.
  destruct ev; simpl; auto.
  unfold disconnect. destruct (refCurrent a); simpl; auto.
Qed.

Lemma run_returned (onMessage : option handler) (onError : bool)
      (evs : list event) (a : attempt) :
  at_ a = Returned ->
  at_ (run onMessage onError a evs) = Returned
  /\ calls (run onMessage onError a evs) = calls a.
Proof.
  revert a; induction evs as [|ev evs IH]; intros a H; simpl; [auto|].
  destruct (step_returned onMessage onError a ev H) as (H1 & H2).
  destruct (IH _ H1) as (H3 & H4). rewrite H4. auto.
Qed.

(** A step reports an error only out of the [catch] block: the attempt
    was not cancelled, something failed, and [connect()] returns. *)
Lemma step_error (onMessage : option handler) (onError : bool)
      (a : attempt) (ev : event) :
  errors (calls (step onMessage onError a ev)) = errors (calls a)
  \/ (aborted a = false /\ isSubscribed a = true
      /\ (environment_failure ev = true \/ handler_threw onMessage a ev = true)
      /\ at_ a <> Returned /\ at_ (step onMessage onError a ev) = Returned
      /\ exists e,
          errors (calls (step onMessage onError a ev))
          = errors (calls a) ++ [e]).
Proof.
  assert (C : forall e,
             environment_failure ev = true -> at_ a <> Returned ->
             errors (calls (catch onError a e)) = errors (calls a)
             \/ (aborted a = false /\ isSubscribed a = true
                 /\ (environment_failure ev = true
                     \/ handler_threw onMessage a ev = true)
                 /\ at_ a <> Returned /\ at_ (catch onError a e) = Returned
                 /\ exists x, errors (calls (catch onError a e))
                              = errors (calls a) ++ [x])).
  { intros e Hf Hr. destruct (catch_calls onError a e) as [->|(Ha & Hs & ->)];
      [left; reflexivity|].
    right. repeat (split; [solve [auto]|]).
    exists (asError e). rewrite errors_app. reflexivity. }
  unfold step, handler_threw.
  destruct ev; destruct (at_ a) as [| |st|] eqn:E;
    try (left; reflexivity);
    try (left; unfold disconnect; destruct (refCurrent a); reflexivity);
    try (apply C; [reflexivity | discriminate]).
  - (* FetchResolved *)
    destruct ok; [destruct body|]; simpl negb; cbv iota.
    + left. rewrite loop_head_calls. reflexivity.
    + apply C; [reflexivity | discriminate].
    + apply C; [reflexivity | discriminate].
  - (* ReadChunk *)
    destruct (take_lines (buffer st) text) as [lines buf]. simpl fst.
    destruct (for_lines_inv onMessage lines a (currentEvent st))
      as (S1 & T1 & B1 & E1).
    destruct (for_lines onMessage a (currentEvent st) lines) as [a' [cur|e]];
      simpl in S1, T1, B1, E1.
    + left. rewrite loop_head_calls. exact E1.
    + destruct (catch_calls onError a' e) as [->|(Ha & Hs & ->)];
        [left; exact E1|].
      right. split; [|split; [congruence|split; [auto|]]].
      * destruct (aborted a); [rewrite B1 in Ha; auto|reflexivity].
      * split; [discriminate|]. split; [reflexivity|].
        exists (asError e). rewrite errors_app, E1. reflexivity.
Qed.

Lemma errors_at_most_one (onMessage : option handler) (onError : bool)
      (evs : list event) (a : attempt) :
  errors (calls a) = []
  \/ (at_ a = Returned /\ List.length (errors (calls a)) <= 1) ->
  List.length (errors (calls (run onMessage onError a evs))) <= 1.
Proof.
  revert a; induction evs as [|ev evs IH]; intros a H; simpl.
  - destruct H as [->|[_ H]]; simpl; lia.
  - apply IH. destruct H as [H|[Hr H]].
    + destruct (step_error onMessage onError a ev)
        as [E|(_ & _ & _ & _ & Hr & e & E)].
      * left. congruence.
      * right. split; [exact Hr|]. rewrite E, H. simpl. lia.
    + right. destruct (step_returned onMessage onError a ev Hr) as (H1 & H2).
      rewrite H2. auto.
Qed.

(** Cancellation is never undone, and an attempt that is cancelled
    calls back only for a fragment that is still delivered to it. *)
Lemma step_cancelled (onMessage : option handler) (onError : bool)
      (a : attempt) (ev : event) :
  cancelled a ->
  cancelled (step onMessage onError a ev)
  /\ errors (calls (step onMessage onError a ev)) = errors (calls a)
  /\ ((forall text, ev <> ReadChunk text) ->
      calls (step onMessage onError a ev) = calls a).
Proof.
  intros Hc.
  assert (C : forall e, cancelled (catch onError a e)
                        /\ errors (calls (catch onError a e)) = errors (calls a)
                        /\ calls (catch onError a e) = calls a).
  { intros e. rewrite (catch_cancelled onError a e Hc).
    split; [|auto]. unfold cancelled, catch.
    destruct Hc as [H|H]; rewrite H; simpl;
      [|rewrite andb_false_r]; simpl; auto. }
  assert (L : forall st, cancelled (loop_head a st)).
  { intros st. unfold loop_head, cancelled.
    destruct Hc as [H|H]; [|rewrite H; simpl; auto].
    destruct (isSubscribed a); simpl; auto. }
  unfold step.
  destruct ev; destruct (at_ a) as [| |st|] eqn:E;
    try (split; [exact Hc | split; [reflexivity | intros _; reflexivity]]);
    try (destruct (C error) as (C1 & C2 & C3);
         split; [exact C1 | split; [exact C2 | intros _; exact C3]]);
    try (split; [right; reflexivity
                | split; [reflexivity | intros _; reflexivity]]);
    try (unfold disconnect; destruct (refCurrent a);
         (split; [try exact Hc; left; reflexivity
                 | split; [reflexivity | intros _; reflexivity]])).
  - (* FetchResolved *)
    destruct ok; [destruct body|]; simpl negb; cbv iota.
    + split; [apply L|]. rewrite loop_head_calls. auto.
    + destruct (C (ErrorObject (js "Response body is not readable")))
        as (C1 & C2 & C3). auto.
    + destruct (C (ErrorObject (js "SSE connection failed: " ++ statusText)))
        as (C1 & C2 & C3). auto.
  - (* ReadChunk *)
    destruct (take_lines (buffer st) text) as [lines buf].
    destruct (for_lines_inv onMessage lines a (currentEvent st))
      as (S1 & T1 & B1 & E1).
    destruct (for_lines onMessage a (currentEvent st) lines) as [a' [cur|e]];
      simpl in S1, T1, B1, E1.
    + assert (Hc' : cancelled a').
      { destruct Hc as [H|H]; [left; auto | right; congruence]. }
      split; [|split; [rewrite loop_head_calls; exact E1|]].
      * unfold loop_head, cancelled.
        destruct Hc' as [H|H]; [|rewrite H; simpl; auto].
        destruct (isSubscribed a'); simpl; auto.
      * intros H. exfalso. apply (H text). reflexivity.
    + assert (Hc' : cancelled a').
      { destruct Hc as [H|H]; [left; auto | right; congruence]. }
      split; [|split].
      * unfold cancelled, catch.
        destruct Hc' as [H|H]; rewrite H; simpl;
          [|rewrite andb_false_r]; simpl; auto.
      * rewrite (catch_cancelled onError a' e Hc'). exact E1.
      * intros H. exfalso. apply (H text). reflexivity.
Qed.

Lemma run_cancelled (onMessage : option handler) (onError : bool)
      (evs : list event) (a : attempt) :
  cancelled a ->
  errors (calls (run onMessage onError a evs)) = errors (calls a)
  /\ (Forall (fun ev => forall text, ev <> ReadChunk text) evs ->
      calls (run onMessage onError a evs) = calls a).
Proof.
  revert a; induction evs as [|ev evs IH]; intros a Hc; simpl; [auto|].
  destruct (step_cancelled onMessage onError a ev Hc) as (H1 & H2 & H3).
  destruct (IH _ H1) as (H4 & H5). split; [congruence|].
  intros HF. inversion HF as [|? ? Hev Hevs]; subst.
  rewrite (H5 Hevs). apply H3. exact Hev.
Qed.

Lemma catch_flags (onError : bool) (a : attempt) (e : thrown) :
  refCurrent (catch onError a e) = refCurrent a
  /\ aborted (catch onError a e) = aborted a.
Proof.
  unfold catch.
  destruct (negb (aborted a) && isSubscribed a), onError; simpl; auto.
Qed.

Lemma loop_head_flags (a : attempt) (st : ParserState) :
  refCurrent (loop_head a st) = refCurrent a
  /\ aborted (loop_head a st) = aborted a.
Proof. unfold loop_head. destruct (isSubscribed a); simpl; auto. Qed.

Lemma for_lines_ref (onMessage : option handler) (lines : list jsstring)
      (a : attempt) (cur : Partial.t) :
  refCurrent a = true \/ aborted a = true ->
  refCurrent (fst (for_lines onMessage a cur lines)) = true
  \/ aborted (fst (for_lines onMessage a cur lines)) = true.
Proof.
  revert a cur; induction lines as [|l lines IH]; intros a cur H; simpl;
    [exact H|].
  destruct (process_line cur l) as [c m].
  destruct m as [m|]; [|apply IH; exact H].
  destruct onMessage as [h|]; [|apply IH; exact H].
  assert (H2 : let a1 := log a (OnMessage m) in
               let a2 := if disconnects (h (calls a) m)
                         then disconnect a1 else a1 in
               refCurrent a2 = true \/ aborted a2 = true).
  { simpl. unfold disconnect.
    destruct (disconnects (h (calls a) m)); simpl; [|exact H].
    destruct (refCurrent a) eqn:R; simpl; [auto|].
    destruct H as [H|H]; [discriminate | auto]. }
  destruct (throws (h (calls a) m)); [exact H2 | apply IH; exact H2].
Qed.

(** The handle still refers to the controller of an attempt that was
    not cleaned up. *)
Lemma run_ref (onMessage : option handler) (onError : bool)
      (evs : list event) (a : attempt) :
  refCurrent a = true \/ aborted a = true ->
  refCurrent (run onMessage onError a evs) = true
  \/ aborted (run onMessage onError a evs) = true.
Proof.
  revert a; induction evs as [|ev evs IH]; intros a H; simpl; [exact H|].
  apply IH. clear IH.
  assert (C : forall a' e,
             refCurrent a' = true \/ aborted a' = true ->
             refCurrent (catch onError a' e) = true
             \/ aborted (catch onError a' e) = true).
  { intros a' e H'. destruct (catch_flags onError a' e) as [-> ->]. exact H'. }
  assert (L : forall a' st,
             refCurrent a' = true \/ aborted a' = true ->
             refCurrent (loop_head a' st) = true
             \/ aborted (loop_head a' st) = true).
  { intros a' st H'. destruct (loop_head_flags a' st) as [-> ->]. exact H'. }
  unfold step.
  destruct ev; destruct (at_ a) as [| |st|] eqn:E;
    try exact H; try (apply C; exact H); try (right; reflexivity);
    try (unfold disconnect; destruct (refCurrent a) eqn:R; simpl;
         [right; reflexivity
         | destruct H as [H|H]; [discriminate | right; exact H]]).
  - destruct ok; [destruct body|]; simpl negb; cbv iota;
      [apply L | apply C | apply C]; exact H.
  - destruct (take_lines (buffer st) text) as [lines buf].
    pose proof (for_lines_ref onMessage lines a (currentEvent st) H) as F.
    destruct (for_lines onMessage a (currentEvent st) lines) as [a' [cur|e]];
      simpl in F; [apply L | apply C]; exact F.
Qed.

Lemma messages_app (l1 l2 : list call) :
  messages (l1 ++ l2) = messages l1 ++ messages l2.
Proof. apply flat_map_app. Qed.

(** With a handler that never throws, the line loop runs to its end and
    [onMessage] receives the messages of [process_lines], in order. *)
Lemma for_lines_messages (h : handler) (lines : list jsstring)
      (a : attempt) (cur : Partial.t) :
  (forall cs m, throws (h cs m) = None) ->
  snd (for_lines (Some h) a cur lines) = inl (fst (process_lines cur lines))
  /\ messages (calls (fst (for_lines (Some h) a cur lines)))
     = messages (calls a) ++ snd (process_lines cur lines).
Proof.
  intros Hh. revert a cur; induction lines as [|l lines IH]; intros a cur;
    simpl.
  - rewrite app_nil_r. auto.
  - destruct (process_line cur l) as [c [m|]].
    + rewrite Hh.
      set (a2 := if disconnects (h (calls a) m)
                 then disconnect (log a (OnMessage m))
                 else log a (OnMessage m)).
      assert (E2 : calls a2 = calls a ++ [OnMessage m]).
      { subst a2. unfold disconnect.
        destruct (disconnects (h (calls a) m)); [|reflexivity].
        destruct (refCurrent (log a (OnMessage m))); reflexivity. }
      destruct (IH a2 c) as (I1 & I2). rewrite I1, I2, E2, messages_app.
      destruct (process_lines c lines) as [c' ms]. simpl.
      rewrite <- app_assoc. auto.
    + destruct (IH a c) as (I1 & I2). rewrite I1, I2.
      destruct (process_lines c lines) as [c' ms]. auto.
Qed.

(** A fragment read by a subscribed attempt is fed to the parser, and
    [onMessage] receives what [feed] produces. *)
Lemma read_chunk_feed (h : handler) (onError : bool) (a : attempt)
      (st : ParserState) (text : jsstring) :
  (forall cs m, throws (h cs m) = None) ->
  at_ a = AwaitRead st -> isSubscribed a = true ->
  at_ (step (Some h) onError a (ReadChunk text))
  = AwaitRead (fst (feed st text))
  /\ isSubscribed (step (Some h) onError a (ReadChunk text)) = true
  /\ messages (calls (step (Some h) onError a (ReadChunk text)))
     = messages (calls a) ++ snd (feed st text).
Proof.
  intros Hh Ha Hs. unfold step, feed. rewrite Ha.
  destruct (take_lines (buffer st) text) as [lines buf].
  destruct (for_lines_messages h lines a (currentEvent st) Hh) as (F1 & F2).
  destruct (for_lines_inv (Some h) lines a (currentEvent st)) as (S1 & _).
  destruct (for_lines (Some h) a (currentEvent st) lines) as [a' r].
  simpl in F1, F2, S1. subst r.
  destruct (process_lines (currentEvent st) lines) as [cur ms]. simpl in *.
  unfold loop_head. rewrite S1, Hs. simpl. rewrite S1, Hs. auto.
Qed.

(** Fragments read one after the other. *)
Lemma read_chunks_feed_all (h : handler) (onError : bool)
      (chunks : list jsstring) (a : attempt) (st : ParserState) :
  (forall cs m, throws (h cs m) = None) ->
  at_ a = AwaitRead st -> isSubscribed a = true ->
  at_ (run (Some h) onError a (map ReadChunk chunks))
  = AwaitRead (fst (feed_all st chunks))
  /\ messages (calls (run (Some h) onError a (map ReadChunk chunks)))
     = messages (calls a) ++ snd (feed_all st chunks).
Proof.
  intros Hh. revert a st; induction chunks as [|c chunks IH];
    intros a st Ha Hs; simpl.
  - rewrite app_nil_r. auto.
  - destruct (read_chunk_feed h onError a st c Hh Ha Hs) as (R1 & R2 & R3).
    destruct (feed st c) as [st' ms]. simpl in R1, R3.
    destruct (IH _ st' R1 R2) as (I1 & I2).
    destruct (feed_all st' chunks) as [st'' ms']. simpl in I1, I2 |- *.
    rewrite I1, I2, R3, app_assoc. auto.
Qed.

(** The messages [onMessage] receives do not depend on where the
    transport cuts the text into fragments. *)
Lemma chunked_reads_same_messages (h : handler) (onError : bool)
      (c : jsstring) (cs : list jsstring) (a : attempt) (st : ParserState) :
  (forall cs m, throws (h cs m) = None) ->
  at_ a = AwaitRead st -> isSubscribed a = true ->
  messages (calls (run (Some h) onError a (map ReadChunk (c :: cs))))
  = messages (calls (step (Some h) onError a
                          (ReadChunk (List.concat (c :: cs))))).
Proof.
  intros Hh Ha Hs.
  destruct (read_chunks_feed_all h onError (c :: cs) a st Hh Ha Hs) as (_ & E).
  destruct (read_chunk_feed h onError a st (List.concat (c :: cs)) Hh Ha Hs)
    as (_ & _ & E').
  rewrite E, E', feed_all_concat. reflexivity.
Qed.

(** ** The claims about the attempt *)

(** C5.  When the stream ends, [connect()] returns without calling back:
    whatever the buffer and the accumulator hold is dropped, no message is
    handed over for it and no error is reported, then or later. *)
Theorem stream_end_drops_partial_record
        (onMessage : option handler) (onError : bool)
        (a : attempt) (st : ParserState) :
  at_ a = AwaitRead st ->
  at_ (step onMessage onError a ReadDone) = Returned
  /\ calls (step onMessage onError a ReadDone) = calls a
  /\ forall evs,
      calls (run onMessage onError (step onMessage onError a ReadDone) evs)
      = calls a.
Proof.
  intros H. unfold step. rewrite H. simpl.
  split; [reflexivity | split; [reflexivity|]].
  intros evs. apply (run_returned onMessage onError evs (set_at a Returned)).
  reflexivity.
Qed.

Lemma stream_end_drops_partial_record_witness :
  let a := run (Some quiet) true started
               [TokenResolved (js "t"); FetchResolved true (js "OK") true;
                ReadChunk (js "data: x")] in
  at_ a = AwaitRead (mkParser (js "data: x") Partial.empty)
  /\ calls a = []
  /\ at_ (step (Some quiet) true a ReadDone) = Returned
  /\ calls (step (Some quiet) true a ReadDone) = calls a
  /\ forall evs,
      calls (run (Some quiet) true (step (Some quiet) true a ReadDone) evs)
      = calls a.
Proof.
  intros a. split; [reflexivity | split; [reflexivity|]].
  apply (stream_end_drops_partial_record
           (Some quiet) true a (mkParser (js "data: x") Partial.empty)).
  reflexivity.
Defined.

(** The same with the [data] line complete and only the blank line
    missing. *)
Example stream_end_after_data_line :
  calls (run (Some quiet) true started
             [TokenResolved (js "t"); FetchResolved true (js "OK") true;
              ReadChunk (js "data: x" ++ [NL]); ReadDone])
  = [].
Proof. reflexivity. Qed.

(** C7, as stated, fails: a fragment that is still delivered after the
    cleanup or after [disconnect()] is processed, and a handler that calls
    [disconnect()] is called again for the rest of the fragment. *)
Lemma message_dispatched_after_cancellation :
  let pre := [TokenResolved (js "t"); FetchResolved true (js "OK") true] in
  let x := SSEMessage.mk None (js "x") None in
  let y := SSEMessage.mk None (js "y") None in
  calls (run (Some quiet) true started (pre ++ [Cleanup])) = []
  /\ calls (run (Some quiet) true started
                (pre ++ [Cleanup; ReadChunk (js "data: x" ++ [NL; NL])]))
     = [OnMessage x]
  /\ calls (run (Some quiet) true started (pre ++ [Disconnect])) = []
  /\ calls (run (Some quiet) true started
                (pre ++ [Disconnect; ReadChunk (js "data: x" ++ [NL; NL])]))
     = [OnMessage x]
  /\ aborted (run (Some stopper) true started
                  (pre ++ [ReadChunk (js "data: x" ++ [NL; NL])]))
     = true
  /\ calls (run (Some stopper) true started
                (pre ++ [ReadChunk (js "data: x" ++ [NL; NL]
                                    ++ js "data: y" ++ [NL; NL])]))
     = [OnMessage x; OnMessage y].
Proof. repeat split. Qed.

Lemma catch_isSubscribed (onError : bool) (a : attempt) (e : thrown) :
  isSubscribed (catch onError a e) = isSubscribed a.
Proof.
  unfold catch.
  destruct (negb (aborted a) && isSubscribed a), onError; reflexivity.
Qed.

(** An error is reported only by a [catch] block that finds the attempt
    not cancelled, and nothing runs after it: the attempt is not cancelled
    when the step is over either. *)
Lemma step_error_flags (onMessage : option handler) (onError : bool)
      (a : attempt) (ev : event) :
  errors (calls (step onMessage onError a ev)) <> errors (calls a) ->
  aborted (step onMessage onError a ev) = false
  /\ isSubscribed (step onMessage onError a ev) = true.
Proof.
  assert (C : forall a' e,
             errors (calls (catch onError a' e)) <> errors (calls a') ->
             aborted (catch onError a' e) = false
             /\ isSubscribed (catch onError a' e) = true).
  { intros a' e H.
    destruct (catch_flags onError a' e) as (_ & ->).
    rewrite catch_isSubscribed.
    destruct (catch_calls onError a' e) as [E|(Ha & Hs & _)];
      [rewrite E in H; contradiction | auto]. }
  intros H. unfold step in H |- *.
  destruct ev; destruct (at_ a) as [| |st|] eqn:E;
    try (exfalso; apply H; reflexivity);
    try (exfalso; apply H; unfold disconnect; destruct (refCurrent a);
         reflexivity);
    try (apply C; exact H).
  - destruct ok; [destruct body|]; simpl negb in H |- *; cbv iota in H |- *;
      try (apply C; exact H).
    exfalso. apply H. rewrite loop_head_calls. reflexivity.
  - destruct (take_lines (buffer st) text) as [lines buf].
    destruct (for_lines_inv onMessage lines a (currentEvent st))
      as (_ & _ & _ & E1).
    destruct (for_lines onMessage a (currentEvent st) lines) as [a' [cur|e]];
      simpl in E1.
    + exfalso. apply H. rewrite loop_head_calls. exact E1.
    + apply C. rewrite E1. exact H.
Qed.

(** A [disconnect()] called by [onMessage] leaves the controller aborted
    when the loop ends, normally or by an exception. *)
Lemma handler_disconnected_aborts (onMessage : option handler)
      (lines : list jsstring) (a : attempt) (cur : Partial.t) :
  refCurrent a = true \/ aborted a = true ->
  handler_disconnected onMessage a cur lines = true ->
  aborted (fst (for_lines onMessage a cur lines)) = true.
Proof.
  revert a cur; induction lines as [|l lines IH]; intros a cur R; simpl;
    [discriminate|].
  destruct (process_line cur l) as [c m].
  destruct m as [m|]; [|apply IH; exact R].
  destruct onMessage as [h|]; [|apply IH; exact R].
  destruct (disconnects (h (calls a) m)) eqn:Ed; simpl.
  - intros _.
    assert (A : aborted (disconnect (log a (OnMessage m))) = true).
    { unfold disconnect. simpl.
      destruct (refCurrent a) eqn:Er; [reflexivity|].
      destruct R as [R|R]; [discriminate | exact R]. }
    destruct (throws (h (calls a) m)); [exact A|].
    destruct (for_lines_inv (Some h) lines
                (disconnect (log a (OnMessage m))) c) as (_ & _ & B & _).
    apply B, A.
  - destruct (throws (h (calls a) m)); [discriminate|].
    apply IH. exact R.
Qed.

(** C7 (amended).  Once the cleanup has run or [disconnect()] was called,
    the attempt is cancelled; a cancelled attempt never calls [onError],
    whatever happens next, a failing read included, and it calls nothing
    at all as long as no further fragment is delivered to it.  A request
    made by [onMessage] itself while a fragment is processed counts: a
    step that reports an error leaves the attempt not cancelled, and a
    fragment during which [onMessage] called [disconnect()] reports no
    error and leaves the attempt cancelled.  What [onMessage] receives for
    the lines left of such a fragment, and for fragments delivered after
    the request, is not part of the statement. *)
Theorem no_error_after_cancellation
        (onMessage : option handler) (onError : bool) :
  (forall pre c,
      c = Cleanup \/ c = Disconnect ->
      cancelled (step onMessage onError
                      (run onMessage onError started pre) c))
  /\ (forall a evs,
         cancelled a ->
         errors (calls (run onMessage onError a evs)) = errors (calls a)
         /\ (Forall (fun ev => forall text, ev <> ReadChunk text) evs ->
             calls (run onMessage onError a evs) = calls a))
  /\ (forall a ev,
         errors (calls (step onMessage onError a ev)) <> errors (calls a) ->
         aborted (step onMessage onError a ev) = false
         /\ isSubscribed (step onMessage onError a ev) = true)
  /\ (forall pre st text,
         at_ (run onMessage onError started pre) = AwaitRead st ->
         handler_disconnected onMessage (run onMessage onError started pre)
                              (currentEvent st)
                              (fst (take_lines (buffer st) text)) = true ->
         cancelled (step onMessage onError
                         (run onMessage onError started pre)
                         (ReadChunk text))
         /\ errors (calls (step onMessage onError
                                (run onMessage onError started pre)
                                (ReadChunk text)))
            = errors (calls (run onMessage onError started pre))).
Proof.
  split; [|split; [|split]].
  - intros pre c Hc.
    pose proof (run_ref onMessage onError pre started (or_introl eq_refl))
      as R.
    set (a := run onMessage onError started pre) in *.
    destruct Hc as [-> | ->].
    + right. reflexivity.
    + left. unfold step; simpl. unfold disconnect.
      destruct (at_ a); (destruct R as [R|R]; [rewrite R; reflexivity|]);
        destruct (refCurrent a); simpl; auto.
  - intros a evs Hc. apply run_cancelled. exact Hc.
  - intros a ev. apply step_error_flags.
  - intros pre st text Ha Hd.
    pose proof (run_ref onMessage onError pre started (or_introl eq_refl))
      as R.
    set (a := run onMessage onError started pre) in *.
    unfold step. rewrite Ha.
    destruct (take_lines (buffer st) text) as [lines buf]. simpl fst in Hd.
    pose proof (handler_disconnected_aborts onMessage lines a
                  (currentEvent st) R Hd) as A.
    destruct (for_lines_inv onMessage lines a (currentEvent st))
      as (_ & _ & _ & E1).
    destruct (for_lines onMessage a (currentEvent st) lines) as [a' [cur|e]];
      simpl in A, E1.
    + split; [|rewrite loop_head_calls; exact E1].
      left. destruct (loop_head_flags a' (mkParser buf cur)) as (_ & ->).
      exact A.
    + split.
      * left. destruct (catch_flags onError a' e) as (_ & ->). exact A.
      * rewrite (catch_cancelled onError a' e (or_introl A)). exact E1.
Qed.

Lemma no_error_after_cancellation_witness :
  let pre := [TokenResolved (js "t"); FetchResolved true (js "OK") true;
              ReadChunk (js "data: x" ++ [NL])] in
  let a := step (Some quiet) true (run (Some quiet) true started pre)
                Disconnect in
  let b := run (Some stop_and_throw) true started
               [TokenResolved (js "t"); FetchResolved true (js "OK") true] in
  (cancelled a
   /\ errors (calls (run (Some quiet) true a
                         [ReadRejected (ErrorObject (js "AbortError"))]))
      = errors (calls a)
   /\ calls (run (Some quiet) true a
                 [ReadRejected (ErrorObject (js "AbortError"))])
      = calls a)
  /\ (aborted (step (Some thrower) true b
                    (ReadChunk (js "data: x" ++ [NL; NL]))) = false
      /\ isSubscribed (step (Some thrower) true b
                            (ReadChunk (js "data: x" ++ [NL; NL]))) = true)
  /\ (cancelled (step (Some stop_and_throw) true b
                      (ReadChunk (js "data: x" ++ [NL; NL])))
      /\ errors (calls (step (Some stop_and_throw) true b
                             (ReadChunk (js "data: x" ++ [NL; NL]))))
         = errors (calls b)).
Proof.
  intros pre a b.
  split; [|split].
  - destruct (no_error_after_cancellation (Some quiet) true) as (H1 & H2 & _).
    assert (Hc : cancelled a) by (apply H1; right; reflexivity).
    split; [exact Hc|].
    destruct (H2 a [ReadRejected (ErrorObject (js "AbortError"))] Hc)
      as (E1 & E2).
    split; [exact E1|]. apply E2.
    apply Forall_cons; [discriminate | apply Forall_nil].
  - destruct (no_error_after_cancellation (Some thrower) true)
      as (_ & _ & H3 & _).
    apply (H3 b (ReadChunk (js "data: x" ++ [NL; NL]))). discriminate.
  - destruct (no_error_after_cancellation (Some stop_and_throw) true)
      as (_ & _ & _ & H4).
    apply (H4 [TokenResolved (js "t"); FetchResolved true (js "OK") true]
              initial (js "data: x" ++ [NL; NL])); reflexivity.
Defined.

(** The handler calls [disconnect()] and throws: the message is handed
    over, the exception is caught, and no error is reported. *)
Example disconnect_then_throw_is_silent :
  calls (run (Some stop_and_throw) true started
             [TokenResolved (js "t"); FetchResolved true (js "OK") true;
              ReadChunk (js "data: x" ++ [NL; NL])])
  = [OnMessage (SSEMessage.mk None (js "x") None)].
Proof. reflexivity. Qed.

(** C8, as stated, fails: [onError] is also called when the caller's
    [onMessage] throws, with the token, the response and the read all
    successful. *)
Lemma handler_exception_reported :
  let evs := [TokenResolved (js "t"); FetchResolved true (js "OK") true;
              ReadChunk (js "data: x" ++ [NL; NL])] in
  forallb (fun ev => negb (environment_failure ev)) evs = true
  /\ calls (run (Some thrower) true started evs)
     = [OnMessage (SSEMessage.mk None (js "x") None); OnError (js "boom")].
Proof. split; reflexivity. Qed.

(** C8 (amended).  In one attempt [onError] is called at most once; it is
    called only when something failed (the credential supplier, the
    request or its response, a read, or the caller's [onMessage], which
    threw) and the attempt is not cancelled, neither before the event nor
    when the failure is caught, so that a [disconnect()] the handler
    called before it threw counts; it is never called when the stream
    ends. *)
Theorem error_reported_at_most_once :
  (forall onMessage onError evs,
      List.length (errors (calls (run onMessage onError started evs))) <= 1)
  /\ (forall onMessage onError a ev,
         errors (calls (step onMessage onError a ev)) <> errors (calls a) ->
         aborted a = false /\ isSubscribed a = true
         /\ aborted (step onMessage onError a ev) = false
         /\ isSubscribed (step onMessage onError a ev) = true
         /\ (environment_failure ev = true
             \/ handler_threw onMessage a ev = true))
  /\ (forall onMessage onError a,
         calls (step onMessage onError a ReadDone) = calls a).
Proof.
  split; [|split].
  - intros onMessage onError evs. apply errors_at_most_one. left. reflexivity.
  - intros onMessage onError a ev H.
    destruct (step_error_flags onMessage onError a ev H) as (Pa & Ps).
    destruct (step_error onMessage onError a ev) as [E|(Ha & Hs & Hf & _)];
      [contradiction | auto].
  - intros onMessage onError a. unfold step. destruct (at_ a); reflexivity.
Qed.

Lemma error_reported_at_most_once_witness :
  let ev := TokenRejected (ErrorObject (js "no token")) in
  let b := run (Some thrower) true started
               [TokenResolved (js "t"); FetchResolved true (js "OK") true] in
  let chunk := ReadChunk (js "data: x" ++ [NL; NL]) in
  (aborted started = false /\ isSubscribed started = true
   /\ aborted (step (Some quiet) true started ev) = false
   /\ isSubscribed (step (Some quiet) true started ev) = true
   /\ (environment_failure ev = true
       \/ handler_threw (Some quiet) started ev = true))
  /\ (aborted b = false /\ isSubscribed b = true
      /\ aborted (step (Some thrower) true b chunk) = false
      /\ isSubscribed (step (Some thrower) true b chunk) = true
      /\ (environment_failure chunk = true
          \/ handler_threw (Some thrower) b chunk = true)).
Proof.
  intros ev b chunk.
  destruct error_reported_at_most_once as (_ & H & _).
  split.
  - apply (H (Some quiet) true started ev). discriminate.
  - apply (H (Some thrower) true b chunk). discriminate.
Defined.

(** * Further properties of the hook *)

(** ** Cutting lines *)

Lemma take_lines_no_newline (s : jsstring) :
  Forall (fun l => ~ In NL l) (fst (take_lines [] s))
  /\ ~ In NL (snd (take_lines [] s)).
Proof.
  induction s as [|c s [IH1 IH2]].
  - split; [constructor | intros []].
  - rewrite take_lines_cons. destruct (take_lines [] s) as [ls r].
    simpl in IH1, IH2.
    destruct (N.eqb_spec c NL) as [->|Hc].
    + split; [constructor; [intros [] | exact IH1] | exact IH2].
    + destruct ls as [|l ls]; simpl.
      * split; [constructor|]. intros [E|E]; [congruence | tauto].
      * inversion IH1 as [|? ? Hl Hls]; subst.
        split; [|exact IH2]. constructor; [|exact Hls].
        intros [E|E]; [congruence | tauto].
Qed.

(** X1.  Whatever was buffered and whatever arrives, the lines handed to
    the loop and the text kept in [buffer] for the next read contain no
    ['\n']. *)
Theorem buffer_never_holds_newline (st : ParserState) (text : jsstring) :
  Forall (fun l => ~ In NL l) (fst (take_lines (buffer st) text))
  /\ ~ In NL (buffer (fst (feed st text))).
Proof.
  pose proof (take_lines_no_newline (buffer st ++ text)) as [H1 H2].
  rewrite <- take_lines_buffer in H1, H2.
  split; [exact H1|]. unfold feed.
  destruct (take_lines (buffer st) text) as [lines buf].
  destruct (process_lines (currentEvent st) lines). exact H2.
Qed.

(** X2.  Cutting loses nothing: the lines, each followed by ['\n'], and
    then the new buffer, are exactly the old buffer followed by the text
    read. *)
Theorem lines_and_buffer_reassemble (buf text : jsstring) :
  flat_map (fun l => l ++ [NL]) (fst (take_lines buf text))
  ++ snd (take_lines buf text)
  = buf ++ text.
Proof.
  rewrite take_lines_buffer. generalize (buf ++ text) as s. clear.
  induction s as [|c s IH]; [reflexivity|].
  rewrite take_lines_cons. destruct (take_lines [] s) as [ls r].
  simpl in IH.
  destruct (N.eqb_spec c NL) as [->|Hc].
  - simpl. rewrite IH. reflexivity.
  - destruct ls as [|l ls]; simpl in IH |- *; rewrite <- IH; reflexivity.
Qed.

(** ** Messages *)

Lemma process_lines_data_nonempty (cur : Partial.t) (lines : list jsstring)
      (m : SSEMessage.t) :
  In m (snd (process_lines cur lines)) -> SSEMessage.data m <> [].
Proof.
  revert cur; induction lines as [|l lines IH]; intros cur; simpl; [tauto|].
  destruct (process_line cur l) as [c o] eqn:E.
  specialize (IH c). destruct (process_lines c lines) as [c' ms].
  simpl in IH |- *. intros H. apply in_app_or in H. destruct H as [H|H].
  - destruct o as [m'|]; [|destruct H]. destruct H as [<-|[]].
    destruct (forallb isWhiteSpace l) eqn:Eb.
    + rewrite (process_line_blank cur l Eb) in E. inversion E as [[E1 E2]].
      unfold dispatch in E2.
      destruct (Partial.data cur) as [[|x d]|]; try discriminate.
      inversion E2. simpl. discriminate.
    + pose proof (process_line_nonblank cur l Eb) as N.
      rewrite E in N. discriminate N.
  - apply IH, H.
Qed.

(** X3.  Every message the parser produces has data that is not empty,
    from any state and for any fragments. *)
Theorem delivered_data_never_empty (st : ParserState)
        (chunks : list jsstring) (m : SSEMessage.t) :
  In m (snd (feed_all st chunks)) -> SSEMessage.data m <> [].
Proof.
  revert st; induction chunks as [|c chunks IH]; intros st; simpl; [tauto|].
  destruct (feed st c) as [st' ms] eqn:E.
  specialize (IH st'). destruct (feed_all st' chunks) as [st'' ms'].
  simpl in IH |- *. intros H. apply in_app_or in H. destruct H as [H|H];
    [|apply IH, H].
  unfold feed in E. destruct (take_lines (buffer st) c) as [lines buf].
  pose proof (process_lines_data_nonempty (currentEvent st) lines m) as P.
  destruct (process_lines (currentEvent st) lines) as [cur ms0].
  inversion E; subst. apply P, H.
Qed.

Lemma delivered_data_never_empty_witness :
  SSEMessage.data (SSEMessage.mk None (js "part1") None) <> [].
Proof.
  apply (delivered_data_never_empty
           initial [js "data: par"; js "t1" ++ [NL; NL]]).
  left. reflexivity.
Defined.

Lemma blank_resets (cur : Partial.t) (lines : list jsstring) (b : jsstring) :
  trim b = [] -> fst (process_lines cur (lines ++ [b])) = Partial.empty.
Proof.
  intros Hb. rewrite process_lines_app.
  destruct (process_lines cur lines) as [c ms]. simpl.
  rewrite process_line_blank by (apply trim_nil_iff; exact Hb). reflexivity.
Qed.

(** X4.  Records do not leak into one another: what follows a blank line
    is processed as from an empty accumulator, whatever came before, so
    neither [event] nor [id] nor [data] of one record reaches the next. *)
Theorem records_are_independent
        (cur : Partial.t) (before after : list jsstring) (b : jsstring) :
  trim b = [] ->
  process_lines cur (before ++ b :: after)
  = (fst (process_lines Partial.empty after),
     snd (process_lines cur (before ++ [b]))
     ++ snd (process_lines Partial.empty after)).
Proof.
  intros Hb.
  replace (before ++ b :: after) with ((before ++ [b]) ++ after)
    by (rewrite <- app_assoc; reflexivity).
  rewrite process_lines_app.
  pose proof (blank_resets cur before b Hb) as E.
  destruct (process_lines cur (before ++ [b])) as [c ms]. simpl in E; subst c.
  destruct (process_lines Partial.empty after); reflexivity.
Qed.

Lemma records_are_independent_witness :
  process_lines Partial.empty
                ([js "id: 1"; js "data: a"] ++ [] :: [js "data: b"; []])
  = (Partial.empty,
     [SSEMessage.mk None (js "a") (Some (js "1"))]
     ++ [SSEMessage.mk None (js "b") None]).
Proof.
  apply (records_are_independent
           Partial.empty [js "id: 1"; js "data: a"] [js "data: b"; []] []).
  reflexivity.
Defined.

(** ** What a block amounts to *)

Lemma fieldValue_fieldOf (name line : jsstring) :
  name <> [] -> ~ In COLON name ->
  fieldValue name line
  = match fieldOf line with
    | Some (n, value) => if jseqb n name then Some value else None
    | None => None
    end.
Proof.
  intros Hne Hn. unfold fieldValue, fieldOf.
  rewrite startsWith_splitColon by assumption.
  destruct (splitColon line) as [[n rest]|] eqn:E; [|reflexivity].
  destruct (jseqb n name) eqn:En.
  - apply jseqb_eq in En; subst n.
    rewrite (skipn_splitColon line name rest E).
    destruct name as [|c name]; [congruence|].
    rewrite (jseqb_refl (c :: name)). reflexivity.
  - destruct n; [reflexivity | rewrite En; reflexivity].
Qed.

Lemma switch_field_id (cur : Partial.t) (name value : jsstring) :
  Partial.id (switch_field cur name value)
  = if jseqb name (js "id") then Some value else Partial.id cur.
Proof.
  unfold switch_field.
  destruct (jseqb name (js "event")) eqn:E1;
    [apply jseqb_eq in E1; subst; reflexivity|].
  destruct (jseqb name (js "data")) eqn:E2;
    [apply jseqb_eq in E2; subst; reflexivity|].
  destruct (jseqb name (js "id")); [reflexivity|].
  destruct (jseqb name (js "retry")); reflexivity.
Qed.

Lemma process_line_event_value (cur : Partial.t) (line : jsstring) :
  nonblank line ->
  Partial.event (fst (process_line cur line))
  = match fieldValue (js "event") line with
    | Some v => Some v
    | None => Partial.event cur
    end.
Proof.
  intros Hb. rewrite (process_line_fieldOf cur line Hb).
  rewrite fieldValue_fieldOf
    by (try discriminate; simpl; intuition discriminate).
  simpl. destruct (fieldOf line) as [[n v]|]; [|reflexivity].
  rewrite switch_field_event. destruct (jseqb n (js "event")); reflexivity.
Qed.

Lemma process_line_id_value (cur : Partial.t) (line : jsstring) :
  nonblank line ->
  Partial.id (fst (process_line cur line))
  = match fieldValue (js "id") line with
    | Some v => Some v
    | None => Partial.id cur
    end.
Proof.
  intros Hb. rewrite (process_line_fieldOf cur line Hb).
  rewrite fieldValue_fieldOf
    by (try discriminate; simpl; intuition discriminate).
  simpl. destruct (fieldOf line) as [[n v]|]; [|reflexivity].
  rewrite switch_field_id. destruct (jseqb n (js "id")); reflexivity.
Qed.

Lemma last_cons_default {A : Type} (x d : A) (l : list A) :
  last (x :: l) d = last l x.
Proof.
  revert x d; induction l as [|y l IH]; intros x d; [reflexivity|].
  change (last (x :: y :: l) d) with (last (y :: l) d).
  rewrite (IH y d), (IH y x). reflexivity.
Qed.

Lemma block_event_last (cur : Partial.t) (block : list jsstring) :
  Forall nonblank block ->
  Partial.event (fst (process_lines cur block))
  = last (map Some (fieldValues (js "event") block)) (Partial.event cur).
Proof.
  intros H; revert cur; induction H as [|l block Hl _ IH]; intros cur;
    [reflexivity|].
  simpl process_lines.
  pose proof (process_line_event_value cur l Hl) as E.
  destruct (process_line cur l) as [c m]. simpl in E.
  specialize (IH c). destruct (process_lines c block) as [c' ms].
  simpl in IH |- *. rewrite IH, E.
  change (fieldValues (js "event") (l :: block))
    with (optlist (fieldValue (js "event") l)
          ++ fieldValues (js "event") block).
  destruct (fieldValue (js "event") l); cbn [optlist app map];
    [rewrite last_cons_default|]; reflexivity.
Qed.

Lemma block_id_last (cur : Partial.t) (block : list jsstring) :
  Forall nonblank block ->
  Partial.id (fst (process_lines cur block))
  = last (map Some (fieldValues (js "id") block)) (Partial.id cur).
Proof.
  intros H; revert cur; induction H as [|l block Hl _ IH]; intros cur;
    [reflexivity|].
  simpl process_lines.
  pose proof (process_line_id_value cur l Hl) as E.
  destruct (process_line cur l) as [c m]. simpl in E.
  specialize (IH c). destruct (process_lines c block) as [c' ms].
  simpl in IH |- *. rewrite IH, E.
  change (fieldValues (js "id") (l :: block))
    with (optlist (fieldValue (js "id") l) ++ fieldValues (js "id") block).
  destruct (fieldValue (js "id") l); cbn [optlist app map];
    [rewrite last_cons_default|]; reflexivity.
Qed.

Lemma dropEmpty_head (vs : list jsstring) (v : jsstring)
      (rest : list jsstring) :
  dropEmpty vs = v :: rest -> v <> [].
Proof.
  induction vs as [|x vs IH]; simpl; [discriminate|].
  destruct x; [exact IH|]. intros E; inversion E; discriminate.
Qed.

Lemma join_data_fold_empty (d : option jsstring) (vs : list jsstring) :
  d = None \/ d = Some [] ->
  fold_left (fun d v => Some (join_data d v)) vs d
  = match vs with
    | [] => d
    | _ :: _ => Some (join_nl (dropEmpty vs))
    end.
Proof.
  revert d; induction vs as [|v vs IH]; intros d Hd; [reflexivity|].
  cbn [fold_left].
  assert (E : join_data d v = v) by (destruct Hd; subst; reflexivity).
  rewrite E. destruct v as [|c v].
  - rewrite IH by (right; reflexivity). destruct vs; reflexivity.
  - rewrite join_data_fold. reflexivity.
Qed.

(** The messages of a block ended by a blank line, from an empty
    accumulator. *)
Lemma block_message (block : list jsstring) (b : jsstring) :
  Forall nonblank block -> trim b = [] ->
  process_lines Partial.empty (block ++ [b])
  = (Partial.empty,
     match dropEmpty (dataValues block) with
     | [] => []
     | v :: vs =>
         [SSEMessage.mk
            (last (map Some (fieldValues (js "event") block)) None)
            (join_nl (v :: vs))
            (last (map Some (fieldValues (js "id") block)) None)]
     end).
Proof.
  intros Hb Hblank. rewrite (block_then_blank _ _ _ Hb Hblank).
  f_equal. unfold dispatch.
  rewrite (block_data Partial.empty block Hb).
  rewrite (block_event_last Partial.empty block Hb).
  rewrite (block_id_last Partial.empty block Hb).
  rewrite join_data_fold_empty by (left; reflexivity).
  cbn [Partial.data Partial.event Partial.id Partial.empty].
  destruct (dataValues block) as [|v0 vs0] eqn:Ev; [reflexivity|].
  destruct (dropEmpty (v0 :: vs0)) as [|v vs] eqn:Ed; [reflexivity|].
  pose proof (dropEmpty_head _ _ _ Ed) as Hv.
  rewrite join_nl_cons. destruct v as [|c v]; [congruence|]. reflexivity.
Qed.

(** X5.  Within a record the last [event] line and the last [id] line
    win: the message carries the value of the last one of each, and
    nothing where there is none. *)
Theorem last_event_and_id_win
        (block : list jsstring) (b : jsstring) (m : SSEMessage.t) :
  Forall nonblank block -> trim b = [] ->
  In m (snd (process_lines Partial.empty (block ++ [b]))) ->
  SSEMessage.event m = last (map Some (fieldValues (js "event") block)) None
  /\ SSEMessage.id m = last (map Some (fieldValues (js "id") block)) None.
Proof.
  intros Hb Hblank. rewrite (block_message block b Hb Hblank). simpl snd.
  destruct (dropEmpty (dataValues block)); [intros []|].
  intros [<-|[]]. split; reflexivity.
Qed.

Lemma last_event_and_id_win_witness :
  SSEMessage.event (SSEMessage.mk (Some (js "b")) (js "x") (Some (js "2")))
  = last (map Some (fieldValues (js "event")
                      [js "event: a"; js "id: 1"; js "data: x";
                       js "event: b"; js "id: 2"])) None
  /\ SSEMessage.id (SSEMessage.mk (Some (js "b")) (js "x") (Some (js "2")))
     = last (map Some (fieldValues (js "id")
                         [js "event: a"; js "id: 1"; js "data: x";
                          js "event: b"; js "id: 2"])) None.
Proof.
  apply (last_event_and_id_win
           [js "event: a"; js "id: 1"; js "data: x";
            js "event: b"; js "id: 2"] []).
  - repeat constructor; intros H; vm_compute in H; discriminate H.
  - reflexivity.
  - left. reflexivity.
Defined.

(** X6.  The data of a record: the empty values at the front of its
    [data] lines are dropped, and the rest is joined with newlines; when
    nothing is left (no [data] line, or empty values only) the block
    yields no message, otherwise exactly one. *)
Theorem data_of_a_block (block : list jsstring) (b : jsstring) :
  Forall nonblank block -> trim b = [] ->
  map SSEMessage.data (snd (process_lines Partial.empty (block ++ [b])))
  = match dropEmpty (dataValues block) with
    | [] => []
    | v :: vs => [join_nl (v :: vs)]
    end.
Proof.
  intros Hb Hblank. rewrite (block_message block b Hb Hblank). simpl snd.
  destruct (dropEmpty (dataValues block)); reflexivity.
Qed.

Lemma data_of_a_block_witness :
  map SSEMessage.data
      (snd (process_lines Partial.empty
                          ([js "data:"; js "data: b"; js "data:"; js "data: c"]
                           ++ [[]])))
  = [js "b" ++ NL :: NL :: js "c"].
Proof.
  apply (data_of_a_block
           [js "data:"; js "data: b"; js "data:"; js "data: c"] []).
  - repeat constructor; intros H; vm_compute in H; discriminate H.
  - reflexivity.
Defined.

Lemma passedOver_line (cur : Partial.t) (line : jsstring) :
  passedOver line -> process_line cur line = (cur, None).
Proof.
  intros (Hb & H). pose proof (nonblank_false line Hb) as Hw.
  destruct H as [H|[H|(name & rest & -> & Hne & Hn & He & Hd & Hi)]].
  - apply process_line_comment; assumption.
  - apply process_line_no_colon; assumption.
  - rewrite process_line_field by assumption. unfold switch_field.
    rewrite (jseqb_neq _ _ He), (jseqb_neq _ _ Hd), (jseqb_neq _ _ Hi).
    destruct (jseqb name (js "retry")); reflexivity.
Qed.

(** X7.  Comments, lines without a colon and lines of any other field
    ([retry] included) can stand anywhere among the lines: with or without
    such a line the loop yields the same messages and the same
    accumulator. *)
Theorem passed_over_lines_change_nothing
        (cur : Partial.t) (before after : list jsstring) (line : jsstring) :
  passedOver line ->
  process_lines cur (before ++ line :: after)
  = process_lines cur (before ++ after).
Proof.
  intros H. rewrite !process_lines_app.
  destruct (process_lines cur before) as [c ms].
  simpl. rewrite (passedOver_line c line H).
  destruct (process_lines c after); reflexivity.
Qed.

Lemma passed_over_lines_change_nothing_witness :
  process_lines Partial.empty
                ([js "event: state"] ++ js ":heartbeat" :: [js "data: x"; []])
  = process_lines Partial.empty ([js "event: state"] ++ [js "data: x"; []]).
Proof.
  apply (passed_over_lines_change_nothing
           Partial.empty [js "event: state"] [js "data: x"; []]
           (js ":heartbeat")).
  split; [intros H; vm_compute in H; discriminate H | left; reflexivity].
Defined.

(** ** Fragments and callbacks *)

Lemma step_chunk (onMessage : option handler) (onError : bool)
      (a : attempt) (st : ParserState) (text : jsstring) :
  at_ a = AwaitRead st ->
  step onMessage onError a (ReadChunk text)
  = let (lines, buf) := take_lines (buffer st) text in
    match for_lines onMessage a (currentEvent st) lines with
    | (a', inl cur) => loop_head a' (mkParser buf cur)
    | (a', inr error) => catch onError a' error
    end.
Proof. intros H. unfold step. rewrite H. reflexivity. Qed.

Lemma step_chunk_returned (onMessage : option handler) (onError : bool)
      (a : attempt) (text : jsstring) :
  at_ a = Returned -> step onMessage onError a (ReadChunk text) = a.
Proof. intros H. unfold step. rewrite H. reflexivity. Qed.

Lemma for_lines_app (onMessage : option handler) (l1 l2 : list jsstring)
      (a : attempt) (cur : Partial.t) :
  for_lines onMessage a cur (l1 ++ l2)
  = match for_lines onMessage a cur l1 with
    | (a', inl cur') => for_lines onMessage a' cur' l2
    | (a', inr error) => (a', inr error)
    end.
Proof.
  revert a cur; induction l1 as [|l l1 IH]; intros a cur; simpl;
    [reflexivity|].
  destruct (process_line cur l) as [c m].
  destruct m as [m|]; [|apply IH].
  destruct onMessage as [h|]; [|apply IH].
  destruct (throws (h (calls a) m)); [reflexivity | apply IH].
Qed.

Lemma disconnect_set_at (a : attempt) (s : suspension) :
  disconnect (set_at a s) = set_at (disconnect a) s.
Proof. unfold disconnect. simpl. destruct (refCurrent a); reflexivity. Qed.

Lemma for_lines_set_at (onMessage : option handler) (lines : list jsstring)
      (a : attempt) (s : suspension) (cur : Partial.t) :
  for_lines onMessage (set_at a s) cur lines
  = (set_at (fst (for_lines onMessage a cur lines)) s,
     snd (for_lines onMessage a cur lines)).
Proof.
  revert a cur; induction lines as [|l lines IH]; intros a cur; simpl;
    [reflexivity|].
  destruct (process_line cur l) as [c m].
  destruct m as [m|]; [|apply IH].
  destruct onMessage as [h|]; [|apply IH].
  change (log (set_at a s) (OnMessage m)) with (set_at (log a (OnMessage m)) s).
  destruct (disconnects (h (calls a) m)).
  - rewrite disconnect_set_at.
    destruct (throws (h (calls a) m)); [reflexivity | apply IH].
  - destruct (throws (h (calls a) m)); [reflexivity | apply IH].
Qed.

Lemma loop_head_set_at (a : attempt) (s : suspension) (st : ParserState) :
  loop_head (set_at a s) st = loop_head a st.
Proof. unfold loop_head. simpl. destruct (isSubscribed a); reflexivity. Qed.

Lemma catch_set_at (onError : bool) (a : attempt) (s : suspension)
      (e : thrown) :
  catch onError (set_at a s) e = catch onError a e.
Proof.
  unfold catch. simpl.
  destruct (negb (aborted a) && isSubscribed a), onError; reflexivity.
Qed.

(** Two fragments read one after the other are one fragment. *)
Lemma step_chunk_app (onMessage : option handler) (onError : bool)
      (a : attempt) (st : ParserState) (x y : jsstring) :
  at_ a = AwaitRead st -> isSubscribed a = true ->
  step onMessage onError (step onMessage onError a (ReadChunk x)) (ReadChunk y)
  = step onMessage onError a (ReadChunk (x ++ y)).
Proof.
  intros Ha Hs.
  rewrite (step_chunk onMessage onError a st (x ++ y) Ha).
  rewrite (step_chunk onMessage onError a st x Ha).
  rewrite (take_lines_buffer (buffer st) (x ++ y)), app_assoc, take_lines_app.
  rewrite (take_lines_buffer (buffer st) x).
  destruct (take_lines [] (buffer st ++ x)) as [la ra].
  destruct (take_lines [] (ra ++ y)) as [lb rb] eqn:Ey.
  rewrite for_lines_app.
  destruct (for_lines_inv onMessage la a (currentEvent st)) as (S1 & _).
  destruct (for_lines onMessage a (currentEvent st) la) as [a' [cur'|e]];
    simpl in S1.
  - replace (loop_head a' (mkParser ra cur'))
      with (set_at a' (AwaitRead (mkParser ra cur')))
      by (unfold loop_head; rewrite S1, Hs; reflexivity).
    rewrite (step_chunk onMessage onError
               (set_at a' (AwaitRead (mkParser ra cur')))
               (mkParser ra cur') y eq_refl).
    cbn [buffer currentEvent]. rewrite take_lines_buffer, Ey.
    rewrite for_lines_set_at.
    destruct (for_lines onMessage a' cur' lb) as [a'' [c|e]];
      cbn [fst snd]; [apply loop_head_set_at | apply catch_set_at].
  - apply step_chunk_returned. reflexivity.
Qed.

Lemma run_chunks_concat
      (onMessage : option handler) (onError : bool)
      (a : attempt) (st : ParserState)
      (c : jsstring) (cs : list jsstring) :
  at_ a = AwaitRead st -> isSubscribed a = true ->
  run onMessage onError a (map ReadChunk (c :: cs))
  = step onMessage onError a (ReadChunk (List.concat (c :: cs))).
Proof.
  intros Ha Hs. revert c; induction cs as [|c' cs IH]; intros c.
  - simpl. rewrite app_nil_r. reflexivity.
  - change (run onMessage onError a (map ReadChunk (c :: c' :: cs)))
      with (run onMessage onError
                (step onMessage onError
                      (step onMessage onError a (ReadChunk c)) (ReadChunk c'))
                (map ReadChunk cs)).
    rewrite (step_chunk_app onMessage onError a st c c' Ha Hs).
    change (run onMessage onError
                (step onMessage onError a (ReadChunk (c ++ c')))
                (map ReadChunk cs))
      with (run onMessage onError a (map ReadChunk ((c ++ c') :: cs))).
    rewrite IH. simpl. rewrite app_assoc. reflexivity.
Qed.

(** X8.  Fragment boundaries do not show in the callbacks: for an attempt
    that is subscribed and waits for a read, fragments read one after the
    other leave the attempt, with all the calls it made, exactly as their
    concatenation read as one fragment does, whatever the caller's
    [onMessage] does (return, call [disconnect()], throw). *)
Theorem fragments_read_as_one
        (onMessage : option handler) (onError : bool)
        (a : attempt) (st : ParserState)
        (c : jsstring) (cs : list jsstring) :
  at_ a = AwaitRead st -> isSubscribed a = true ->
  run onMessage onError a (map ReadChunk (c :: cs))
  = step onMessage onError a (ReadChunk (List.concat (c :: cs))).
Proof. apply run_chunks_concat. Qed.

Lemma fragments_read_as_one_witness :
  run (Some thrower) true
      (mkAttempt true false true (AwaitRead initial) [])
      (map ReadChunk [js "data: x"; [NL]; NL :: js "data: y"; [NL; NL]])
  = step (Some thrower) true
         (mkAttempt true false true (AwaitRead initial) [])
         (ReadChunk
            (List.concat
               [js "data: x"; [NL]; NL :: js "data: y"; [NL; NL]])).
Proof.
  apply (fragments_read_as_one (Some thrower) true
           (mkAttempt true false true (AwaitRead initial) []) initial);
    reflexivity.
Defined.

Lemma for_lines_calls (h : handler) (lines : list jsstring)
      (a : attempt) (cur : Partial.t) :
  (forall cs m, throws (h cs m) = None) ->
  calls (fst (for_lines (Some h) a cur lines))
  = calls a ++ map OnMessage (snd (process_lines cur lines)).
Proof.
  intros Hh. revert a cur; induction lines as [|l lines IH]; intros a cur;
    simpl.
  - rewrite app_nil_r. reflexivity.
  - destruct (process_line cur l) as [c [m|]].
    + rewrite Hh.
      set (a2 := if disconnects (h (calls a) m)
                 then disconnect (log a (OnMessage m))
                 else log a (OnMessage m)).
      assert (E2 : calls a2 = calls a ++ [OnMessage m]).
      { subst a2. unfold disconnect.
        destruct (disconnects (h (calls a) m)); [|reflexivity].
        destruct (refCurrent (log a (OnMessage m))); reflexivity. }
      rewrite (IH a2 c), E2.
      destruct (process_lines c lines) as [c' ms]. simpl.
      rewrite <- app_assoc. reflexivity.
    + rewrite (IH a c). destruct (process_lines c lines) as [c' ms].
      reflexivity.
Qed.

(** X9.  From the start of an attempt to the callbacks: once the token and
    a successful response with a body have arrived, and with an
    [onMessage] that does not throw, the calls made while fragments are
    read are exactly the messages of the parser for the whole text, in
    order, each handed to [onMessage] once, with no [onError] among them;
    the attempt then waits for the next read. *)
Theorem messages_reach_the_handler
        (h : handler) (onError : bool) (token statusText : jsstring)
        (c : jsstring) (cs : list jsstring) :
  (forall hist m, throws (h hist m) = None) ->
  calls (run (Some h) onError started
             (TokenResolved token :: FetchResolved true statusText true
              :: map ReadChunk (c :: cs)))
  = map OnMessage (snd (feed initial (List.concat (c :: cs))))
  /\ at_ (run (Some h) onError started
              (TokenResolved token :: FetchResolved true statusText true
               :: map ReadChunk (c :: cs)))
     = AwaitRead (fst (feed initial (List.concat (c :: cs)))).
Proof.
  intros Hh.
  change (run (Some h) onError started
              (TokenResolved token :: FetchResolved true statusText true
               :: map ReadChunk (c :: cs)))
    with (run (Some h) onError
              (mkAttempt true false true (AwaitRead initial) [])
              (map ReadChunk (c :: cs))).
  set (a := mkAttempt true false true (AwaitRead initial) []).
  rewrite (run_chunks_concat (Some h) onError a initial c cs
             eq_refl eq_refl).
  rewrite (step_chunk (Some h) onError a initial _ eq_refl).
  unfold feed.
  destruct (take_lines (buffer initial) (List.concat (c :: cs)))
    as [lines buf].
  pose proof (for_lines_calls h lines a (currentEvent initial) Hh) as C.
  destruct (for_lines_messages h lines a (currentEvent initial) Hh)
    as (R & _).
  destruct (for_lines_inv (Some h) lines a (currentEvent initial))
    as (S1 & _).
  destruct (process_lines (currentEvent initial) lines) as [cur ms].
  destruct (for_lines (Some h) a (currentEvent initial) lines) as [a' r].
  simpl in C, R, S1. subst r.
  simpl. unfold loop_head. rewrite S1. simpl.
  split; [exact C | reflexivity].
Qed.

Lemma messages_reach_the_handler_witness :
  calls (run (Some stopper) true started
             (TokenResolved (js "t") :: FetchResolved true (js "OK") true
              :: map ReadChunk [js "event: state"; NL :: js "data: 1";
                                [NL; NL]]))
  = [OnMessage (SSEMessage.mk (Some (js "state")) (js "1") None)]
  /\ at_ (run (Some stopper) true started
              (TokenResolved (js "t") :: FetchResolved true (js "OK") true
               :: map ReadChunk [js "event: state"; NL :: js "data: 1";
                                 [NL; NL]]))
     = AwaitRead initial.
Proof.
  apply (messages_reach_the_handler stopper true (js "t") (js "OK")
           (js "event: state") [NL :: js "data: 1"; [NL; NL]]).
  reflexivity.
Defined.

(** ** The end of an attempt *)

Lemma error_means_returned (onMessage : option handler) (onError : bool)
      (evs : list event) (a : attempt) :
  errors (calls a) = [] \/ at_ a = Returned ->
  errors (calls (run onMessage onError a evs)) = []
  \/ at_ (run onMessage onError a evs) = Returned.
Proof.
  revert a; induction evs as [|ev evs IH]; intros a H; simpl; [exact H|].
  apply IH. destruct H as [H|H].
  - destruct (step_error onMessage onError a ev)
      as [E|(_ & _ & _ & _ & Hr & _)]; [left; congruence | right; exact Hr].
  - right. apply step_returned, H.
Qed.

(** X10.  A failure ends the attempt: once [onError] has been called,
    [connect()] has returned, and no later event makes the attempt call
    back again (there is no retry). *)
Theorem failure_is_final
        (onMessage : option handler) (onError : bool)
        (evs : list event) :
  errors (calls (run onMessage onError started evs)) <> [] ->
  at_ (run onMessage onError started evs) = Returned
  /\ forall more,
      calls (run onMessage onError (run onMessage onError started evs) more)
      = calls (run onMessage onError started evs).
Proof.
  intros H.
  destruct (error_means_returned onMessage onError evs started
              (or_introl eq_refl)) as [E|E]; [contradiction|].
  split; [exact E|]. intros more.
  apply (run_returned onMessage onError more _ E).
Qed.

Lemma failure_is_final_witness :
  at_ (run (Some quiet) true started
           [TokenResolved (js "t"); FetchResolved false (js "Forbidden") true])
  = Returned
  /\ forall more,
      calls (run (Some quiet) true
                 (run (Some quiet) true started
                      [TokenResolved (js "t");
                       FetchResolved false (js "Forbidden") true])
                 more)
      = calls (run (Some quiet) true started
                   [TokenResolved (js "t");
                    FetchResolved false (js "Forbidden") true]).
Proof.
  apply (failure_is_final (Some quiet) true
           [TokenResolved (js "t"); FetchResolved false (js "Forbidden") true]).
  discriminate.
Defined.

Lemma step_unsubscribed_before_read
      (onMessage : option handler) (onError : bool)
      (a : attempt) (ev : event) :
  isSubscribed a = false -> (forall st, at_ a <> AwaitRead st) ->
  isSubscribed (step onMessage onError a ev) = false
  /\ (forall st, at_ (step onMessage onError a ev) <> AwaitRead st)
  /\ calls (step onMessage onError a ev) = calls a.
Proof.
  intros Hs Hr.
  assert (C : forall e,
             isSubscribed (catch onError a e) = false
             /\ (forall st, at_ (catch onError a e) <> AwaitRead st)
             /\ calls (catch onError a e) = calls a).
  { intros e. rewrite (catch_cancelled onError a e (or_intror Hs)).
    split; [|split; [discriminate | reflexivity]].
    unfold catch. rewrite Hs, andb_false_r. exact Hs. }
  unfold step.
  destruct ev; destruct (at_ a) as [| |st|] eqn:E;
    try (exfalso; apply (Hr st); reflexivity);
    try apply C;
    try (split; [exact Hs | split; [rewrite E; discriminate | reflexivity]]);
    try (split; [reflexivity
                | split; [simpl; rewrite E; discriminate | reflexivity]]);
    try (unfold disconnect; destruct (refCurrent a); simpl;
         (split; [exact Hs | split; [rewrite E; discriminate | reflexivity]])).
  - split; [exact Hs | split; [discriminate | reflexivity]].
  - destruct ok; [destruct body|]; simpl negb; cbv iota; try apply C.
    unfold loop_head. rewrite Hs. simpl.
    split; [exact Hs | split; [discriminate | reflexivity]].
Qed.

(** X11.  Cleanup before the stream is open silences the attempt for
    good: with [isSubscribed] false and no read awaited yet, no event
    (the token, a successful response, fragments) makes the attempt call
    back, and it never waits for a read. *)
Theorem cleanup_before_stream_is_silent
        (onMessage : option handler) (onError : bool)
        (a : attempt) (evs : list event) :
  isSubscribed a = false -> (forall st, at_ a <> AwaitRead st) ->
  calls (run onMessage onError a evs) = calls a
  /\ forall st, at_ (run onMessage onError a evs) <> AwaitRead st.
Proof.
  revert a; induction evs as [|ev evs IH]; intros a Hs Hr; simpl;
    [split; [reflexivity | exact Hr]|].
  destruct (step_unsubscribed_before_read onMessage onError a ev Hs Hr)
    as (H1 & H2 & H3).
  destruct (IH _ H1 H2) as (H4 & H5). split; [congruence | exact H5].
Qed.

Lemma cleanup_before_stream_is_silent_witness :
  calls (run (Some quiet) true
             (run (Some quiet) true started [TokenResolved (js "t"); Cleanup])
             [FetchResolved true (js "OK") true;
              ReadChunk (js "data: x" ++ [NL; NL])])
  = []
  /\ forall st,
      at_ (run (Some quiet) true
               (run (Some quiet) true started
                    [TokenResolved (js "t"); Cleanup])
               [FetchResolved true (js "OK") true;
                ReadChunk (js "data: x" ++ [NL; NL])])
      <> AwaitRead st.
Proof.
  apply (cleanup_before_stream_is_silent (Some quiet) true
           (run (Some quiet) true started [TokenResolved (js "t"); Cleanup])).
  - reflexivity.
  - discriminate.
Defined.

(** X12.  After the cleanup no further read is awaited: the fragment of
    the read that was in flight is the last thing the attempt processes;
    [connect()] returns after it and nothing is called afterwards. *)
Theorem cleanup_stops_reading
        (onMessage : option handler) (onError : bool)
        (a : attempt) (st : ParserState) (text : jsstring) :
  isSubscribed a = false -> at_ a = AwaitRead st ->
  at_ (step onMessage onError a (ReadChunk text)) = Returned
  /\ forall evs,
      calls (run onMessage onError
                 (step onMessage onError a (ReadChunk text)) evs)
      = calls (step onMessage onError a (ReadChunk text)).
Proof.
  intros Hs Ha.
  assert (R : at_ (step onMessage onError a (ReadChunk text)) = Returned).
  { rewrite (step_chunk onMessage onError a st text Ha).
    destruct (take_lines (buffer st) text) as [lines buf].
    destruct (for_lines_inv onMessage lines a (currentEvent st)) as (S1 & _).
    destruct (for_lines onMessage a (currentEvent st) lines) as [a' [cur|e]];
      simpl in S1; [|reflexivity].
    unfold loop_head. rewrite S1, Hs. reflexivity. }
  split; [exact R|]. intros evs.
  apply (run_returned onMessage onError evs _ R).
Qed.

Lemma cleanup_stops_reading_witness :
  at_ (step (Some quiet) true
            (run (Some quiet) true started
                 [TokenResolved (js "t"); FetchResolved true (js "OK") true;
                  Cleanup])
            (ReadChunk (js "data: x" ++ [NL; NL])))
  = Returned
  /\ forall evs,
      calls (run (Some quiet) true
                 (step (Some quiet) true
                       (run (Some quiet) true started
                            [TokenResolved (js "t");
                             FetchResolved true (js "OK") true; Cleanup])
                       (ReadChunk (js "data: x" ++ [NL; NL])))
                 evs)
      = calls (step (Some quiet) true
                    (run (Some quiet) true started
                         [TokenResolved (js "t");
                          FetchResolved true (js "OK") true; Cleanup])
                    (ReadChunk (js "data: x" ++ [NL; NL]))).
Proof.
  apply (cleanup_stops_reading (Some quiet) true
           (run (Some quiet) true started
                [TokenResolved (js "t"); FetchResolved true (js "OK") true;
                 Cleanup])
           initial);
    reflexivity.
Defined.

(** X13.  Stopping twice is stopping once: [disconnect()] and the cleanup
    are idempotent, [disconnect()] after the cleanup does nothing (the ref
    is null), and the cleanup after [disconnect()] is the cleanup. *)
Theorem stopping_is_idempotent
        (onMessage : option handler) (onError : bool) (a : attempt) :
  let st := step onMessage onError in
  st (st a Disconnect) Disconnect = st a Disconnect
  /\ st (st a Cleanup) Cleanup = st a Cleanup
  /\ st (st a Cleanup) Disconnect = st a Cleanup
  /\ st (st a Disconnect) Cleanup = st a Cleanup.
Proof.
  destruct a as [s ab r p cs]. destruct r, p; repeat split.
Qed.

Lemma for_lines_no_handler (lines : list jsstring) (a : attempt)
      (cur : Partial.t) :
  for_lines None a cur lines = (a, inl (fst (process_lines cur lines))).
Proof.
  revert a cur; induction lines as [|l lines IH]; intros a cur; simpl;
    [reflexivity|].
  destruct (process_line cur l) as [c m]. rewrite IH.
  destruct (process_lines c lines). destruct m; reflexivity.
Qed.

Lemma step_chunk_no_handler (onError : bool) (a : attempt)
      (st : ParserState) (text : jsstring) :
  at_ a = AwaitRead st -> isSubscribed a = true ->
  step None onError a (ReadChunk text)
  = set_at a (AwaitRead (fst (feed st text))).
Proof.
  intros Ha Hs. rewrite (step_chunk None onError a st text Ha). unfold feed.
  destruct (take_lines (buffer st) text) as [lines buf].
  rewrite for_lines_no_handler.
  destruct (process_lines (currentEvent st) lines) as [cur ms].
  unfold loop_head. rewrite Hs. reflexivity.
Qed.

(** X14.  Without [onMessage] the records are parsed and dropped: for a
    subscribed attempt that waits for a read, reading fragments only moves
    the buffer and the accumulator on as [feed] does; nothing is called,
    no exception ends the loop, the flags stay as they are, and the
    attempt waits for the next read. *)
Theorem absent_onMessage_only_parses
        (onError : bool) (chunks : list jsstring)
        (a : attempt) (st : ParserState) :
  at_ a = AwaitRead st -> isSubscribed a = true ->
  run None onError a (map ReadChunk chunks)
  = set_at a (AwaitRead (fst (feed_all st chunks))).
Proof.
  revert a st; induction chunks as [|c chunks IH]; intros a st Ha Hs.
  - simpl. destruct a as [s ab r p cs]. simpl in Ha. subst p. reflexivity.
  - change (run None onError a (map ReadChunk (c :: chunks)))
      with (run None onError (step None onError a (ReadChunk c))
                (map ReadChunk chunks)).
    rewrite (step_chunk_no_handler onError a st c Ha Hs).
    rewrite (IH (set_at a (AwaitRead (fst (feed st c)))) (fst (feed st c))
                eq_refl Hs).
    cbn [feed_all]. destruct (feed st c) as [st' ms]. cbn [fst].
    destruct (feed_all st' chunks) as [st'' ms']. reflexivity.
Qed.

Lemma absent_onMessage_only_parses_witness :
  run None true
      (run None true started
           [TokenResolved (js "t"); FetchResolved true (js "OK") true])
      (map ReadChunk [js "data: x" ++ [NL; NL]; js "data: y"])
  = set_at (run None true started
                [TokenResolved (js "t"); FetchResolved true (js "OK") true])
           (AwaitRead (mkParser (js "data: y") Partial.empty)).
Proof.
  apply (absent_onMessage_only_parses true
           [js "data: x" ++ [NL; NL]; js "data: y"]
           (run None true started
                [TokenResolved (js "t"); FetchResolved true (js "OK") true])
           initial);
    reflexivity.
Defined.

(** * Properties of the dashboard and of the IOU card *)

Lemma jseqb_false (a b : jsstring) : jseqb a b = false -> a <> b.
Proof. intros H E. subst. rewrite jseqb_refl in H. discriminate. Qed.

(** X15.  The dashboard reloads the IOUs for a record exactly when the
    record is delivered (some [data] value is not empty) and its last
    [event] line says [state]; a record without data, or without that
    event, reloads nothing. *)
Theorem dashboard_reloads_on_state_records
        (block : list jsstring) (b : jsstring) :
  Forall nonblank block -> trim b = [] ->
  (existsb Dashboard.refreshes
           (snd (process_lines Partial.empty (block ++ [b]))) = true
   <-> dropEmpty (dataValues block) <> []
       /\ last (map Some (fieldValues (js "event") block)) None
          = Some (js "state")).
Proof.
  intros Hb Hblank. rewrite (block_message block b Hb Hblank). simpl snd.
  destruct (dropEmpty (dataValues block)) as [|v vs].
  - simpl. split; [discriminate | intros [H _]; congruence].
  - cbn [existsb]. rewrite orb_false_r. unfold Dashboard.refreshes.
    cbn [SSEMessage.event].
    destruct (last (map Some (fieldValues (js "event") block)) None)
      as [e|].
    + split.
      * intros H. apply jseqb_eq in H. subst e.
        split; [discriminate | reflexivity].
      * intros [_ H]. inversion H. apply jseqb_refl.
    + split; [discriminate | intros [_ H]; discriminate H].
Qed.

Lemma dashboard_reloads_on_state_records_witness :
  existsb Dashboard.refreshes
          (snd (process_lines Partial.empty
                              ([js "event: state"; js "data: 1"] ++ [[]])))
  = true
  <-> dropEmpty (dataValues [js "event: state"; js "data: 1"]) <> []
      /\ last (map Some (fieldValues (js "event")
                           [js "event: state"; js "data: 1"])) None
         = Some (js "state").
Proof.
  apply (dashboard_reloads_on_state_records
           [js "event: state"; js "data: 1"] []).
  - repeat constructor; intros H; vm_compute in H; discriminate H.
  - reflexivity.
Defined.

(** [event: state] with no data: nothing is delivered, nothing reloads. *)
Example state_event_without_data :
  snd (feed initial (js "event: state" ++ [NL; NL])) = [].
Proof. reflexivity. Qed.

(** X16.  What the card offers: the payment form exactly to the borrower
    of a due IOU; the cancel button exactly to the lender of a due IOU or
    of one that awaits confirmation; the confirm button exactly to the
    lender of an IOU that awaits confirmation; the actions block is there
    exactly when one of them is, and the payment form and the confirm
    button never appear together. *)
Theorem card_actions (state borrowerEmail lenderEmail currentUser : jsstring) :
  let v := IouCard.render state borrowerEmail lenderEmail currentUser in
  (IouCard.payForm v = true
   <-> borrowerEmail = currentUser /\ state = js "due")
  /\ (IouCard.cancelButton v = true
      <-> lenderEmail = currentUser
          /\ (state = js "due" \/ state = js "awaitingPaymentConfirmation"))
  /\ (IouCard.confirmButton v = true
      <-> lenderEmail = currentUser
          /\ state = js "awaitingPaymentConfirmation")
  /\ IouCard.actions v
     = IouCard.payForm v || IouCard.cancelButton v || IouCard.confirmButton v
  /\ IouCard.payForm v && IouCard.confirmButton v = false.
Proof.
  assert (N : js "due" <> js "awaitingPaymentConfirmation") by discriminate.
  unfold IouCard.render.
  remember (js "due") as due eqn:Hdue.
  remember (js "awaitingPaymentConfirmation") as awaiting eqn:Hawaiting.
  clear Hdue Hawaiting.
  (destruct (jseqb borrowerEmail currentUser) eqn:B;
     [apply jseqb_eq in B | apply jseqb_false in B]);
    (destruct (jseqb lenderEmail currentUser) eqn:L;
     [apply jseqb_eq in L | apply jseqb_false in L]);
    (destruct (jseqb state due) eqn:D;
     [apply jseqb_eq in D | apply jseqb_false in D]);
    (destruct (jseqb state awaiting) eqn:A;
     [apply jseqb_eq in A | apply jseqb_false in A]);
    simpl; repeat split; intros; try discriminate; try tauto;
    try congruence; intuition congruence.
Qed.

(** X17.  The id shown on the card is the first eight code units of the id
    (the whole id when it is shorter), followed by three dots. *)
Theorem id_label_is_a_prefix (id : jsstring) :
  IouCard.idLabel id = firstn 8 id ++ js "..."
  /\ List.length (IouCard.idLabel id) = (Nat.min 8 (List.length id) + 3)%nat.
Proof.
  assert (E : slice id 0 8 = firstn 8 id).
  { unfold slice, relIndex.
    change (0 <? 0)%Z with false. change (8 <? 0)%Z with false. cbv iota.
    replace (Z.to_nat (Z.min 8 (Z.of_nat (List.length id))
                       - Z.min 0 (Z.of_nat (List.length id))))
      with (Nat.min 8 (List.length id)) by lia.
    replace (Z.to_nat (Z.min 0 (Z.of_nat (List.length id)))) with 0%nat
      by lia.
    cbn [skipn].
    destruct (Nat.le_gt_cases 8 (List.length id)) as [H|H].
    - rewrite Nat.min_l by lia. reflexivity.
    - rewrite Nat.min_r by lia. rewrite firstn_all. symmetry.
      apply firstn_all2. lia. }
  unfold IouCard.idLabel. rewrite E. split; [reflexivity|].
  rewrite length_app, length_firstn. reflexivity.
Qed.

Lemma loadIous_ends_loading (Iou : Type) (s : Dashboard.state Iou)
      (o : Dashboard.settled Iou) :
  Dashboard.loading Iou (Dashboard.loadIous_end Iou s o) = false.
Proof. destruct o as [[items|] [m|]|err]; reflexivity. Qed.

(** X18.  When the request of a reload settles, whatever was written to
    the state while it was awaited: [loading] becomes false; on success
    the list is the one received and the error is left as it is; on
    failure (an API error, no data, or a rejected request) the IOUs on
    screen are left as they are and an error is set, and the message is
    not empty, so that the banner shows, when the failure was reported by
    the API.  A reload with nothing written in between that succeeds
    leaves no error. *)
Theorem reload_outcomes (Iou : Type) (s : Dashboard.state Iou)
        (o : Dashboard.settled Iou) :
  let s' := Dashboard.loadIous_end Iou s o in
  Dashboard.loading Iou s' = false
  /\ match o with
     | Dashboard.Fulfilled _ (Some items) None =>
         Dashboard.ious Iou s' = items
         /\ Dashboard.error Iou s' = Dashboard.error Iou s
         /\ Dashboard.error Iou
              (Dashboard.loadIous_end Iou (Dashboard.loadIous_begin Iou s) o)
            = None
     | Dashboard.Fulfilled _ _ _ =>
         Dashboard.ious Iou s' = Dashboard.ious Iou s
         /\ Dashboard.banner Iou s' = true
     | Dashboard.Rejected _ _ =>
         Dashboard.ious Iou s' = Dashboard.ious Iou s
         /\ Dashboard.error Iou s' <> None
     end.
Proof.
  destruct o as [[items|] [[[|c m]|]|]|err]; simpl;
    repeat split; try discriminate.
Qed.

(** X19.  The loading placeholder is shown only while a reload is pending
    and no IOU has been loaded yet: a reload in progress keeps the IOUs
    already on screen, and when the request of a reload has settled,
    whatever its outcome and whatever the state at that moment, the
    placeholder is not shown. *)
Theorem loading_placeholder (Iou : Type) (s : Dashboard.state Iou)
        (o : Dashboard.settled Iou) :
  (Dashboard.main Iou (Dashboard.loadIous_begin Iou s)
   = Dashboard.LoadingStateView Iou
   <-> Dashboard.ious Iou s = [])
  /\ (Dashboard.ious Iou s <> [] ->
      Dashboard.main Iou (Dashboard.loadIous_begin Iou s)
      = Dashboard.IouGrid Iou (Dashboard.ious Iou s))
  /\ Dashboard.main Iou (Dashboard.loadIous_end Iou s o)
     <> Dashboard.LoadingStateView Iou
  /\ Dashboard.main Iou
       (Dashboard.loadIous_end Iou (Dashboard.loadIous_begin Iou s) o)
     <> Dashboard.LoadingStateView Iou.
Proof.
  split; [|split; [|split]].
  - unfold Dashboard.main, Dashboard.loadIous_begin. simpl.
    destruct (Dashboard.ious Iou s); simpl;
      split; try reflexivity; discriminate.
  - intros H. unfold Dashboard.main, Dashboard.loadIous_begin. simpl.
    destruct (Dashboard.ious Iou s); [congruence | reflexivity].
  - unfold Dashboard.main.
    rewrite (loadIous_ends_loading Iou s o). simpl.
    destruct (Nat.eqb _ 0); discriminate.
  - unfold Dashboard.main.
    rewrite (loadIous_ends_loading Iou (Dashboard.loadIous_begin Iou s) o).
    simpl. destruct (Nat.eqb _ 0); discriminate.
Qed.

Lemma loading_placeholder_witness :
  Dashboard.main nat
    (Dashboard.loadIous_begin nat (Dashboard.mkState nat [7] false None))
  = Dashboard.IouGrid nat [7].
Proof.
  destruct (loading_placeholder nat (Dashboard.mkState nat [7] false None)
              (Dashboard.Rejected nat OtherValue)) as (_ & H & _).
  apply H. discriminate.
Defined.
